(** * decorator_type_propagation.py: primality counting behind two decorators

    A shallow embedding of [src/decorator_type_propagation.py].

    - Python integers are [Z]; [%] with a positive divisor is [Z.modulo].
    - [math.sqrt] works on IEEE 754 binary64 numbers.  They are modelled with
      the Standard Library's executable specification of binary floating
      point ([SpecFloat], precision 53, exponent bound 1024): the int
      argument is converted with round-to-nearest-even (raising
      [OverflowError] when it does not fit), the square root is the
      correctly rounded one, and [int(...)] truncates.
    - Exceptions are values; a call either returns or raises ([outcome]).
    - A callable is an object with an optional [__name__] and a call
      behaviour over a [world]: the messages handed to [logging.info], the
      process clock read by [perf_counter], and whatever other state the
      program has.
    - A wrapper body runs in a state-and-exception monad over the world that
      also records each direct call of the wrapped callable. *)

From Stdlib Require Import ZArith Lia List String Bool Znumtheory Factorial.
From Stdlib Require Import Permutation.
From Stdlib Require Import Floats.SpecFloat.
Import ListNotations.

Local Open Scope Z_scope.

(** ** Outcomes of a Python call *)

(** A raised exception: its class and its message. *)
Inductive exn : Type := PyExc (exc_class exc_msg : string).

Inductive outcome (A : Type) : Type :=
| Return (value : A)
| Raise (e : exn).
Arguments Return {A} value.
Arguments Raise {A} e.

Definition OverflowError : exn :=
  PyExc "OverflowError" "int too large to convert to float".

Definition ValueError (msg : string) : exn := PyExc "ValueError" msg.

Definition AttributeError (attr : string) : exn := PyExc "AttributeError" attr.

(** ** binary64 arithmetic *)

Module Float64.

Definition prec : Z := 53.
Definition emax : Z := 1024.

(** [float(n)] for a Python int: the nearest binary64 number, ties to
    even; an int beyond the binary64 range raises [OverflowError]. *)
Definition of_int (n : Z) : outcome spec_float :=
  match binary_normalize prec emax n 0 false with
  | S754_infinity _ => Raise OverflowError
  | x => Return x
  end.

(** The least positive int that [of_int] rejects: halfway between the
    largest binary64 number and [2 ^ 1024]. *)
Definition overflow_threshold : Z := 2 ^ 1024 - 2 ^ 970.

(** The correctly rounded square root of the C library. *)
Definition sqrt (x : spec_float) : spec_float := SFsqrt prec emax x.

(** [x - y] *)
Definition sub (x y : spec_float) : spec_float := SFsub prec emax x y.

(** [int(x)]: truncation towards zero. *)
Definition to_int (x : spec_float) : outcome Z :=
  match x with
  | S754_zero _ => Return 0
  | S754_finite s m e =>
      let magnitude :=
        match e with
        | Zneg p => Z.shiftr (Zpos m) (Zpos p)
        | _ => Z.shiftl (Zpos m) e
        end in
      Return (if s then - magnitude else magnitude)
  | S754_infinity _ =>
      Raise (PyExc "OverflowError" "cannot convert float infinity to integer")
  | S754_nan => Raise (ValueError "cannot convert float NaN to integer")
  end.

End Float64.

(** [math.sqrt(number)] applied to an int: the argument is converted to a
    float first; a negative argument is a domain error. *)
Definition math_sqrt (number : Z) : outcome spec_float :=
  match Float64.of_int number with
  | Return x =>
      match Float64.sqrt x with
      | S754_nan => Raise (ValueError "math domain error")
      | y => Return y
      end
  | Raise e => Raise e
  end.

(** [int(sqrt(number))] *)
Definition int_sqrt (number : Z) : outcome Z :=
  match math_sqrt number with
  | Return x => Float64.to_int x
  | Raise e => Raise e
  end.

(** [range(start, stop)] as the list of the integers it yields. *)
Fixpoint range_from (start : Z) (len : nat) : list Z :=
  match len with
  | O => []
  | S len' => start :: range_from (start + 1) len'
  end.

Definition range (start stop : Z) : list Z :=
  range_from start (Z.to_nat (stop - start)).

(** ** [is_prime] *)

(** The [for element in range(...)] loop of [is_prime]: the first exact
    divisor returns [False]; running off the end returns [True]. *)
Fixpoint is_prime_loop (number : Z) (elements : list Z) : bool :=
  match elements with
  | [] => true
  | element :: rest =>
      if number mod element =? 0 then false
      else is_prime_loop number rest
  end.

Definition is_prime (number : Z) : outcome bool :=
  if number <? 2 then Return false
  else
    match int_sqrt number with
    | Return root => Return (is_prime_loop number (range 2 (root + 1)))
    | Raise e => Raise e
    end.

(** ** The body of [count_prime_numbers] *)

(** The [for number in range(upper_bound)] loop, [count] being the running
    total; an exception from [is_prime] leaves the loop. *)
Fixpoint count_loop (numbers : list Z) (count : Z) : outcome Z :=
  match numbers with
  | [] => Return count
  | number :: rest =>
      match is_prime number with
      | Return true => count_loop rest (count + 1)
      | Return false => count_loop rest count
      | Raise e => Raise e
      end
  end.

Definition count_prime_numbers_body (upper_bound : Z) : outcome Z :=
  count_loop (range 0 upper_bound) 0.

(** Whether the loop of [count_prime_numbers] adds [number] to the count. *)
Definition counted (number : Z) : bool :=
  match is_prime number with
  | Return true => true
  | _ => false
  end.

(** ** Callables and the world they run in *)

(** [ParamSpec]: the types of [*args] and [**kwargs] of a signature. *)
Record ParamSpec : Type := { p_args : Type; p_kwargs : Type }.

Section Runtime.

(** State of the program other than the log and the clock. *)
Variable heap : Type.

Record world : Type := {
  logged : list string;        (* messages given to [logging.info], oldest first *)
  clock : nat -> spec_float;   (* the successive readings of [perf_counter()] *)
  clock_reads : nat;           (* how many readings were taken so far *)
  store : heap
}.

Definition log_info (msg : string) (w : world) : world :=
  {| logged := logged w ++ [msg]; clock := clock w;
     clock_reads := clock_reads w; store := store w |}.

Definition tick (w : world) : world :=
  {| logged := logged w; clock := clock w;
     clock_reads := S (clock_reads w); store := store w |}.

(** [Callable[WrappedParams, WrappedReturn]]: [__name__] is [None] for a
    callable object without that attribute. *)
Record callable (WrappedParams : ParamSpec) (WrappedReturn : Type) : Type := {
  __name__ : option string;
  __call__ : p_args WrappedParams -> p_kwargs WrappedParams ->
             world -> outcome WrappedReturn * world
}.
Arguments __name__ {WrappedParams WrappedReturn} _.
Arguments __call__ {WrappedParams WrappedReturn} _ _ _ _.

Section Wrapper.

Context {WrappedParams : ParamSpec} {WrappedReturn : Type}.

(** One direct call [func( *args, **kwargs)] made by a wrapper body: the
    arguments passed, the world at entry, and how the call ended. *)
Record invocation : Type := {
  inv_args : p_args WrappedParams;
  inv_kwargs : p_kwargs WrappedParams;
  inv_entry : world;
  inv_outcome : outcome WrappedReturn;
  inv_exit : world
}.

(** Computations of a wrapper body. *)
Definition body (X : Type) : Type :=
  world -> outcome X * world * list invocation.

Definition ret {X : Type} (x : X) : body X := fun w => (Return x, w, []).

Definition bind {X Y : Type} (c : body X) (k : X -> body Y) : body Y :=
  fun w =>
    match c w with
    | (Return x, w1, calls1) =>
        let '(r, w2, calls2) := k x w1 in (r, w2, calls1 ++ calls2)
    | (Raise e, w1, calls1) => (Raise e, w1, calls1)
    end.

(** [logging.info(msg)] *)
Definition logging_info (msg : string) : body unit :=
  fun w => (Return tt, log_info msg w, []).

(** [perf_counter()] *)
Definition perf_counter : body spec_float :=
  fun w => (Return (clock w (clock_reads w)), tick w, []).

(** [func.__name__] *)
Definition get_name (func : callable WrappedParams WrappedReturn) : body string :=
  fun w =>
    match __name__ func with
    | Some name => (Return name, w, [])
    | None => (Raise (AttributeError "__name__"), w, [])
    end.

(** [func( *args, **kwargs)] *)
Definition call (func : callable WrappedParams WrappedReturn)
    (args : p_args WrappedParams) (kwargs : p_kwargs WrappedParams)
  : body WrappedReturn :=
  fun w =>
    let '(r, w') := __call__ func args kwargs w in
    (r, w', [ {| inv_args := args; inv_kwargs := kwargs; inv_entry := w;
                 inv_outcome := r; inv_exit := w' |} ]).

(** What a caller of the wrapper sees: the outcome and the world. *)
Definition run {X : Type} (c : body X) (w : world) : outcome X * world :=
  fst (c w).

(** The direct calls of the wrapped callable made along the way. *)
Definition calls_of {X : Type} (c : body X) (w : world) : list invocation :=
  snd (c w).

(** [@functools.wraps(func)]: the wrapper takes over the attributes that
    [func] has; a missing one is skipped, which leaves the name of
    [def wrapper]. *)
Definition functools_wraps (func : callable WrappedParams WrappedReturn)
    (wrapper : p_args WrappedParams -> p_kwargs WrappedParams ->
               body WrappedReturn)
  : callable WrappedParams WrappedReturn :=
  {| __name__ := match __name__ func with
                 | Some name => Some name
                 | None => Some "wrapper"%string
                 end;
     __call__ := fun args kwargs => run (wrapper args kwargs) |}.

End Wrapper.

Declare Scope body_scope.
Delimit Scope body_scope with body.
Notation "x <- c ;; k" := (bind c (fun x => k))
  (at level 100, c at next level, right associativity) : body_scope.
Notation "c ;; k" := (bind c (fun _ => k))
  (at level 100, right associativity) : body_scope.

Section Decorators.

Context {WrappedParams : ParamSpec} {WrappedReturn : Type}.

(** The text of [f"{run_time:.2f}"]. *)
Variable format_2f : spec_float -> string.

Definition with_logging_wrapper (func : callable WrappedParams WrappedReturn)
    (args : p_args WrappedParams) (kwargs : p_kwargs WrappedParams)
  : body WrappedReturn :=
  (name <- get_name func ;;
   logging_info ("Calling " ++ name) ;;
   value <- call func args kwargs ;;
   name' <- get_name func ;;
   logging_info ("Finished " ++ name') ;;
   ret value)%body.

Definition with_logging (func : callable WrappedParams WrappedReturn)
  : callable WrappedParams WrappedReturn :=
  functools_wraps func (with_logging_wrapper func).

Definition benchmark_wrapper (func : callable WrappedParams WrappedReturn)
    (args : p_args WrappedParams) (kwargs : p_kwargs WrappedParams)
  : body WrappedReturn :=
  (start_time <- perf_counter ;;
   value <- call func args kwargs ;;
   end_time <- perf_counter ;;
   let run_time := Float64.sub end_time start_time in
   name <- get_name func ;;
   logging_info ("Execution of " ++ name ++ " took "
                 ++ format_2f run_time ++ " seconds.") ;;
   ret value)%body.

Definition benchmark (func : callable WrappedParams WrappedReturn)
  : callable WrappedParams WrappedReturn :=
  functools_wraps func (benchmark_wrapper func).

End Decorators.

(** ** The decorated [count_prime_numbers] *)

(** The signature [(upper_bound: int)], called with one positional
    argument. *)
Definition one_int : ParamSpec := {| p_args := Z; p_kwargs := unit |}.

(** The function object made by [def count_prime_numbers]. *)
Definition count_prime_numbers_def : callable one_int Z :=
  Build_callable one_int Z
    (Some "count_prime_numbers"%string)
    (fun upper_bound _ w => (count_prime_numbers_body upper_bound, w)).

Variable format_2f : spec_float -> string.

(** [@with_logging @benchmark def count_prime_numbers ...] *)
Definition count_prime_numbers : callable one_int Z :=
  with_logging (benchmark format_2f count_prime_numbers_def).

(** [logging.basicConfig(level=logging.INFO)]: it configures the root
    logger, which is state of the process outside the log and the clock;
    [basic_config] is what the call does to that state. *)
Definition logging_basicConfig (basic_config : heap -> heap) (w : world) : world :=
  {| logged := logged w; clock := clock w;
     clock_reads := clock_reads w; store := basic_config (store w) |}.

(** [main] *)
Definition main (basic_config : heap -> heap) (w : world) : outcome unit * world :=
  let w0 := logging_basicConfig basic_config w in
  let result := __call__ count_prime_numbers 50000 tt w0 in
  (match fst result with Return _ => Return tt | Raise e => Raise e end,
   snd result).

End Runtime.

Arguments logged {heap} _.
Arguments clock {heap} _.
Arguments clock_reads {heap} _.
Arguments store {heap} _.
Arguments log_info {heap} _ _.
Arguments tick {heap} _.
Arguments __name__ {heap WrappedParams WrappedReturn} _.
Arguments __call__ {heap WrappedParams WrappedReturn} _ _ _ _.
Arguments inv_args {heap WrappedParams WrappedReturn} _.
Arguments inv_kwargs {heap WrappedParams WrappedReturn} _.
Arguments inv_entry {heap WrappedParams WrappedReturn} _.
Arguments inv_outcome {heap WrappedParams WrappedReturn} _.
Arguments inv_exit {heap WrappedParams WrappedReturn} _.
Arguments run {heap WrappedParams WrappedReturn X} _ _.
Arguments calls_of {heap WrappedParams WrappedReturn X} _ _.
Arguments with_logging_wrapper {heap WrappedParams WrappedReturn} _ _ _.
Arguments with_logging {heap WrappedParams WrappedReturn} _.
Arguments benchmark_wrapper {heap WrappedParams WrappedReturn} _ _ _ _.
Arguments benchmark {heap WrappedParams WrappedReturn} _ _.
Arguments count_prime_numbers_def {heap}.
Arguments count_prime_numbers {heap} _.
Arguments logging_basicConfig {heap} _ _.
Arguments main {heap} _ _ _.

(** ** Callables and a world to try the decorators on *)

(** [def successor(n): return n + 1] *)
Definition successor : callable unit one_int Z :=
  Build_callable unit one_int Z (Some "successor"%string)
    (fun n _ w => (Return (n + 1), w)).

(** [def failing(n): raise RuntimeError("boom")] *)
Definition failing : callable unit one_int Z :=
  Build_callable unit one_int Z (Some "failing"%string)
    (fun _ _ w => (Raise (PyExc "RuntimeError" "boom"), w)).

(** A callable object without [__name__], such as
    [functools.partial(operator.add, 1)]. *)
Definition nameless_successor : callable unit one_int Z :=
  Build_callable unit one_int Z None (fun n _ w => (Return (n + 1), w)).

(** Nothing logged yet, a clock that reads zero. *)
Definition quiet_world : world unit :=
  {| logged := []; clock := fun _ => S754_zero false; clock_reads := 0;
     store := tt |}.

(** A stand-in for the [.2f] format. *)
Definition constant_text (x : spec_float) : string := "0.00".

(** ** What the specification talks about *)

(** The pass-through contract of a wrapper body around [func]: every call
    makes exactly one direct call of [func], with the arguments it was
    given, and ends the way that call ended. *)
Definition passes_through {heap : Type} {P : ParamSpec} {R : Type}
    (wrapper : p_args P -> p_kwargs P ->
               world heap -> outcome R * world heap * list (@invocation heap P R))
    (func : callable heap P R) : Prop :=
  forall args kwargs w,
  exists inv,
    calls_of (wrapper args kwargs) w = [inv]
    /\ inv_args inv = args /\ inv_kwargs inv = kwargs
    /\ __call__ func args kwargs (inv_entry inv) = (inv_outcome inv, inv_exit inv)
    /\ fst (run (wrapper args kwargs) w) = inv_outcome inv.


(** "An integer greater than 1 with no positive divisors other than 1 and
    itself." *)
Definition Prime (p : Z) : Prop :=
  1 < p /\ forall d, 0 < d -> (d | p) -> d = 1 \/ d = p.

(** "No integer divisor [d] with [2 <= d <= sqrt(n)]". *)
Definition no_divisor_up_to_sqrt (n : Z) : Prop :=
  forall d, 2 <= d -> d * d <= n -> ~ (d | n).

(** [c] is the number of integers that satisfy [P]: some duplicate-free
    list holds exactly those integers and has length [c]. *)
Definition cardinal (P : Z -> Prop) (c : Z) : Prop :=
  exists l, NoDup l /\ (forall p, In p l <-> P p) /\ c = Z.of_nat (List.length l).

(** [c] is the number of primes in [[0, bound)]. *)
Definition primes_below (bound c : Z) : Prop :=
  cardinal (fun p => 0 <= p < bound /\ Prime p) c.

(** [c] is the value of the prime-counting function at [x]: the number of
    primes [p <= x]. *)
Definition prime_pi (x c : Z) : Prop :=
  cardinal (fun p => Prime p /\ p <= x) c.

(** ** Auxiliary definitions for the decorator lemmas *)

(** The direct call of [func] that a wrapper makes from the world [w]. *)
Definition direct_call {heap : Type} {P : ParamSpec} {R : Type}
    (func : callable heap P R) (args : p_args P) (kwargs : p_kwargs P)
    (w : world heap) : @invocation heap P R :=
  {| inv_args := args; inv_kwargs := kwargs; inv_entry := w;
     inv_outcome := fst (__call__ func args kwargs w);
     inv_exit := snd (__call__ func args kwargs w) |}.

(** The timing entry that [benchmark] writes for a call that started in
    [w] and whose wrapped callable left the world [w1]. *)
Definition timing_entry {heap : Type} (format_2f : spec_float -> string)
    (name : string) (w w1 : world heap) : string :=
  "Execution of " ++ name ++ " took "
  ++ format_2f (Float64.sub (clock w1 (clock_reads w1)) (clock w (clock_reads w)))
  ++ " seconds.".

(** ** Auxiliary definitions for the rounding lemmas *)

(** The record reached after shifting the exact integer [N] right by [j]
    bits: the quotient, the last bit shifted out, and whether anything
    below that bit was set. *)
Definition shifted (N j : Z) : shr_record :=
  Build_shr_record (N / 2 ^ j)
    ((0 <? j) && Z.odd (N / 2 ^ (j - 1)))
    ((0 <? j) && negb (N mod 2 ^ (j - 1) =? 0)).

(** A positive binary64 number in normal form, as [of_int] and [sqrt]
    produce them here: 53 mantissa bits, exponent within range. *)
Definition normal53 (x : spec_float) : Prop :=
  exists m e, x = S754_finite false m e
              /\ 2 ^ 52 <= Zpos m < 2 ^ 53 /\ -52 <= e <= 971.

(** * Lemmas on the binary64 model *)

Section Digits.

Lemma digits2_pos_bounds (p : positive) :
  2 ^ (Zpos (digits2_pos p) - 1) <= Zpos p < 2 ^ Zpos (digits2_pos p).
Proof.
  induction p as [p IH | p IH |].
  - cbn [digits2_pos]. rewrite Pos2Z.inj_succ.
    replace (Z.succ (Zpos (digits2_pos p)) - 1) with (Z.succ (Zpos (digits2_pos p) - 1)) by lia.
    rewrite !Z.pow_succ_r by lia. lia.
  - cbn [digits2_pos]. rewrite Pos2Z.inj_succ.
    replace (Z.succ (Zpos (digits2_pos p)) - 1) with (Z.succ (Zpos (digits2_pos p) - 1)) by lia.
    rewrite !Z.pow_succ_r by lia. lia.
  - cbn. lia.
Qed.

Lemma digits2_pos_unique (p : positive) (d : Z) :
  2 ^ (d - 1) <= Zpos p < 2 ^ d -> Zpos (digits2_pos p) = d.
Proof.
  intros [Hlo Hhi].
  destruct (digits2_pos_bounds p) as [Glo Ghi].
  assert (Hd : 0 < d).
  { destruct (Z.lt_trichotomy d 0) as [H | [H | H]]; try lia.
    - rewrite Z.pow_neg_r in Hhi by lia. lia.
    - subst d. cbn in Hhi. lia. }
  destruct (Z.lt_trichotomy (Zpos (digits2_pos p)) d) as [H | [H | H]]; try assumption.
  - assert (2 ^ Zpos (digits2_pos p) <= 2 ^ (d - 1)) by (apply Z.pow_le_mono_r; lia). lia.
  - assert (2 ^ d <= 2 ^ (Zpos (digits2_pos p) - 1)) by (apply Z.pow_le_mono_r; lia). lia.
Qed.

End Digits.

Section ShiftRight.

Lemma iter_pos_nat {A : Type} (f : A -> A) (p : positive) (x : A) :
  iter_pos f p x = Nat.iter (Pos.to_nat p) f x.
Proof.
  revert x. induction p as [p IH | p IH |]; intros x; cbn [iter_pos].
  - rewrite !IH, Pos2Nat.inj_xI.
    replace (S (2 * Pos.to_nat p))%nat with (Pos.to_nat p + S (Pos.to_nat p))%nat by lia.
    rewrite Nat.iter_add, Nat.iter_succ_r. reflexivity.
  - rewrite !IH, Pos2Nat.inj_xO.
    replace (2 * Pos.to_nat p)%nat with (Pos.to_nat p + Pos.to_nat p)%nat by lia.
    rewrite Nat.iter_add. reflexivity.
  - reflexivity.
Qed.

Lemma shr_1_nonneg (m : Z) (r s : bool) :
  0 <= m ->
  shr_1 (Build_shr_record m r s) = Build_shr_record (m / 2) (Z.odd m) (r || s).
Proof.
  intros Hm. rewrite <- Z.div2_div.
  destruct m as [| p | p]; [reflexivity | | lia].
  destruct p; reflexivity.
Qed.

Lemma sticky_step (N j : Z) :
  0 <= N -> 0 < j ->
  Z.odd (N / 2 ^ (j - 1)) || negb (N mod 2 ^ (j - 1) =? 0)
  = negb (N mod 2 ^ j =? 0).
Proof.
  intros HN Hj.
  assert (Ha : 0 < 2 ^ (j - 1)) by (apply Z.pow_pos_nonneg; lia).
  assert (E2 : 2 ^ j = 2 * 2 ^ (j - 1)).
  { replace j with (Z.succ (j - 1)) at 1 by lia. apply Z.pow_succ_r. lia. }
  set (a := 2 ^ (j - 1)) in *.
  assert (Hmod : N mod 2 ^ j = a * ((N / a) mod 2) + N mod a).
  { rewrite E2. rewrite Z.mul_comm. rewrite Z.rem_mul_r by lia. lia. }
  rewrite Hmod.
  pose proof (Z.mod_pos_bound N a Ha) as Hb.
  rewrite Zodd_mod.
  pose proof (Z.mod_pos_bound (N / a) 2 ltac:(lia)) as Hq.
  destruct (Z.eqb_spec (N / a mod 2) 1) as [E | E];
    destruct (Z.eqb_spec (N mod a) 0) as [F | F];
    cbn [orb negb]; symmetry.
  - apply Bool.negb_true_iff, Z.eqb_neq. nia.
  - apply Bool.negb_true_iff, Z.eqb_neq. nia.
  - apply Bool.negb_false_iff, Z.eqb_eq. assert (N / a mod 2 = 0) by lia. nia.
  - apply Bool.negb_true_iff, Z.eqb_neq. assert (N / a mod 2 = 0) by lia. nia.
Qed.

Lemma shr_1_shifted (N j : Z) :
  0 <= N -> 0 <= j -> shr_1 (shifted N j) = shifted N (j + 1).
Proof.
  intros HN Hj. unfold shifted.
  assert (Hp : 0 < 2 ^ j) by (apply Z.pow_pos_nonneg; lia).
  rewrite shr_1_nonneg by (apply Z.div_pos; lia).
  replace (j + 1 - 1) with j by lia.
  replace (0 <? j + 1) with true by (symmetry; apply Z.ltb_lt; lia).
  cbn [andb]. f_equal.
  - rewrite Z.pow_add_r, Z.pow_1_r by lia. apply Z.div_div; lia.
  - destruct (Z.ltb_spec 0 j) as [H | H]; cbn [andb].
    + apply sticky_step; assumption.
    + assert (j = 0) by lia. subst j. cbn [orb]. rewrite Z.pow_0_r, Z.mod_1_r. reflexivity.
Qed.

Lemma iter_shr_1 (N : Z) (k : nat) :
  0 <= N ->
  Nat.iter k shr_1 (Build_shr_record N false false) = shifted N (Z.of_nat k).
Proof.
  intros HN. induction k as [| k IH].
  - cbn [Nat.iter nat_rect Z.of_nat]. unfold shifted. cbn [Z.ltb Z.compare andb].
    rewrite Z.pow_0_r, Z.div_1_r. reflexivity.
  - rewrite Nat.iter_succ, IH, shr_1_shifted by lia.
    f_equal. lia.
Qed.

Lemma shr_exact (N e k : Z) :
  0 <= N -> 0 <= k ->
  shr (Build_shr_record N false false) e k = (shifted N k, e + k).
Proof.
  intros HN Hk. destruct k as [| p | p]; [ | | lia ].
  - unfold shr, shifted. cbn [Z.ltb Z.compare andb].
    rewrite Z.pow_0_r, Z.div_1_r, Z.add_0_r. reflexivity.
  - unfold shr. rewrite iter_pos_nat, iter_shr_1 by assumption.
    rewrite positive_nat_Z. reflexivity.
Qed.

Lemma round_of_record (m : Z) (r s : bool) :
  round_nearest_even m (loc_of_shr_record (Build_shr_record m r s))
  = if r && (s || Z.odd m) then m + 1 else m.
Proof.
  rewrite <- Z.negb_even.
  destruct r, s; cbn; try reflexivity.
  destruct (Z.even m); reflexivity.
Qed.

Lemma loc_of_record_of_loc (m : Z) (l : location) :
  loc_of_shr_record (shr_record_of_loc m l) = l
  /\ shr_m (shr_record_of_loc m l) = m.
Proof. destruct l as [| []]; split; reflexivity. Qed.

End ShiftRight.

Section Binary64.

Lemma fexp64 (e : Z) : fexp Float64.prec Float64.emax e = Z.max (e - 53) (-1074).
Proof. reflexivity. Qed.

Lemma Zdigits2_unique (M d : Z) :
  2 ^ (d - 1) <= M < 2 ^ d -> 0 < M -> Zdigits2 M = d.
Proof.
  intros HM Hpos. destruct M as [| p | p]; try lia.
  cbn [Zdigits2]. apply digits2_pos_unique. assumption.
Qed.

Lemma round_nearest_even_cases (M : Z) (l : location) :
  round_nearest_even M l = M \/ round_nearest_even M l = M + 1.
Proof.
  destruct l as [| []]; cbn [round_nearest_even]; auto.
  destruct (Z.even M); auto.
Qed.

(** Rounding a mantissa that already has 53 bits: the mantissa moves up
    by at most one, and a carry into the 54th bit bumps the exponent. *)
Lemma binary_round_aux_53 (M E : Z) (l : location) :
  2 ^ 52 <= M < 2 ^ 53 -> -1074 <= E ->
  binary_round_aux Float64.prec Float64.emax false M E l =
    if round_nearest_even M l =? 2 ^ 53 then
      if E + 1 <=? 971 then S754_finite false (Z.to_pos (2 ^ 52)) (E + 1)
      else S754_infinity false
    else
      if E <=? 971 then S754_finite false (Z.to_pos (round_nearest_even M l)) E
      else S754_infinity false.
Proof.
  intros HM HE.
  unfold binary_round_aux, shr_fexp.
  rewrite (Zdigits2_unique M 53) by (replace (53 - 1) with 52 by reflexivity; lia).
  rewrite fexp64.
  replace (Z.max (53 + E - 53) (-1074) - E) with 0 by lia.
  cbn [shr].
  destruct (loc_of_record_of_loc M l) as [-> ->].
  set (M' := round_nearest_even M l).
  assert (HM' : M' = M \/ M' = M + 1) by apply round_nearest_even_cases.
  destruct (Z.eqb_spec M' (2 ^ 53)) as [Heq | Hne].
  - rewrite Heq.
    rewrite (Zdigits2_unique (2 ^ 53) 54) by (try split; reflexivity).
    rewrite fexp64.
    replace (Z.max (54 + E - 53) (-1074) - E) with 1 by lia.
    cbn [shr shr_record_of_loc iter_pos].
    change (2 ^ 53) with 9007199254740992.
    cbn [shr_1 shr_m].
    change (Float64.emax - Float64.prec) with 971.
    reflexivity.
  - assert (Hr : 2 ^ 52 <= M' < 2 ^ 53) by lia.
    rewrite (Zdigits2_unique M' 53) by (replace (53 - 1) with 52 by reflexivity; lia).
    rewrite fexp64.
    replace (Z.max (53 + E - 53) (-1074) - E) with 0 by lia.
    cbn [shr shr_record_of_loc shr_m].
    change (Float64.emax - Float64.prec) with 971.
    destruct M' as [| p | p]; try (exfalso; lia).
    reflexivity.
Qed.

Lemma pos_iter_xO (p k : positive) :
  Zpos (Pos.iter xO p k) = Zpos p * 2 ^ Zpos k.
Proof.
  induction k as [| k IH] using Pos.peano_ind.
  - cbn [Pos.iter]. rewrite Z.pow_1_r. lia.
  - rewrite Pos.iter_succ, Pos2Z.inj_xO, IH, Pos2Z.inj_succ, Z.pow_succ_r by lia. lia.
Qed.

Lemma Zdigits2_bounds (n : Z) :
  0 < n -> 2 ^ (Zdigits2 n - 1) <= n < 2 ^ Zdigits2 n /\ 0 < Zdigits2 n.
Proof.
  intros Hn. destruct n as [| p | p]; try lia.
  cbn [Zdigits2]. split; [apply digits2_pos_bounds | lia].
Qed.

(** [float(n)] is exact when [n] has at most 53 bits: the mantissa is
    [n] shifted left to 53 bits. *)
Lemma binary_normalize_small (n : Z) :
  0 < n < 2 ^ 53 ->
  binary_normalize Float64.prec Float64.emax n 0 false
  = S754_finite false (Z.to_pos (n * 2 ^ (53 - Zdigits2 n))) (Zdigits2 n - 53)
  /\ 2 ^ 52 <= n * 2 ^ (53 - Zdigits2 n) < 2 ^ 53
  /\ 0 < Zdigits2 n <= 53.
Proof.
  intros [Hpos Hlt].
  destruct (Zdigits2_bounds n Hpos) as [[Hlo Hhi] Hd].
  set (d := Zdigits2 n) in *.
  assert (Hd53 : d <= 53).
  { destruct (Z_le_gt_dec d 53) as [H | H]; [assumption | exfalso].
    assert (2 ^ 53 <= 2 ^ (d - 1)) by (apply Z.pow_le_mono_r; lia). lia. }
  assert (Hscaled : 2 ^ 52 <= n * 2 ^ (53 - d) < 2 ^ 53).
  { assert (E52 : 2 ^ 52 = 2 ^ (d - 1) * 2 ^ (53 - d))
      by (rewrite <- Z.pow_add_r by lia; f_equal; lia).
    assert (E53 : 2 ^ 53 = 2 ^ d * 2 ^ (53 - d))
      by (rewrite <- Z.pow_add_r by lia; f_equal; lia).
    assert (0 < 2 ^ (53 - d)) by (apply Z.pow_pos_nonneg; lia).
    rewrite E52, E53. nia. }
  split; [| split; [assumption | lia]].
  destruct n as [| p | p]; try lia.
  cbn [binary_normalize]. unfold binary_round.
  change (Zpos (digits2_pos p)) with d.
  rewrite fexp64.
  replace (Z.max (d + 0 - 53) (-1074)) with (d - 53) by lia.
  unfold shl_align.
  destruct (d - 53 - 0) as [| k | k] eqn:Ek; try lia.
  - assert (d = 53) by lia.
    replace (53 - d) with 0 in * by lia.
    rewrite Z.pow_0_r, Z.mul_1_r in *.
    rewrite binary_round_aux_53 by lia.
    cbn [round_nearest_even].
    destruct (Z.eqb_spec (Zpos p) (2 ^ 53)); [lia |].
    replace (d - 53) with 0 by lia. reflexivity.
  - assert (Hk : 53 - d = Zpos k) by lia.
    rewrite Hk in *.
    rewrite binary_round_aux_53 by (rewrite ?pos_iter_xO; lia).
    cbn [round_nearest_even].
    rewrite pos_iter_xO.
    destruct (Z.eqb_spec (Zpos p * 2 ^ Zpos k) (2 ^ 53)); [lia |].
    destruct (Z.leb_spec (d - 53) 971); [reflexivity | lia].
Qed.

(** Beyond 53 bits, [float(n)] drops the low [Zdigits2 n - 53] bits and
    rounds on what was dropped. *)
Lemma binary_normalize_large (n : Z) :
  2 ^ 53 <= n ->
  binary_normalize Float64.prec Float64.emax n 0 false
  = binary_round_aux Float64.prec Float64.emax false
      (n / 2 ^ (Zdigits2 n - 53)) (Zdigits2 n - 53)
      (loc_of_shr_record (shifted n (Zdigits2 n - 53)))
  /\ 2 ^ 52 <= n / 2 ^ (Zdigits2 n - 53) < 2 ^ 53
  /\ 53 < Zdigits2 n.
Proof.
  intros Hn.
  assert (Hpos : 0 < n) by (assert (0 < 2 ^ 53) by reflexivity; lia).
  destruct (Zdigits2_bounds n Hpos) as [[Hlo Hhi] Hd].
  set (d := Zdigits2 n) in *.
  assert (Hd53 : 53 < d).
  { destruct (Z_lt_ge_dec 53 d) as [H | H]; [assumption | exfalso].
    assert (2 ^ d <= 2 ^ 53) by (apply Z.pow_le_mono_r; lia). lia. }
  set (k := d - 53).
  assert (Hk : 0 < k) by (unfold k; lia).
  assert (Hpk : 0 < 2 ^ k) by (apply Z.pow_pos_nonneg; lia).
  assert (Hq : 2 ^ 52 <= n / 2 ^ k < 2 ^ 53).
  { assert (E1 : 2 ^ (d - 1) = 2 ^ 52 * 2 ^ k)
      by (rewrite <- Z.pow_add_r by lia; f_equal; unfold k; lia).
    assert (E2 : 2 ^ d = 2 ^ 53 * 2 ^ k)
      by (rewrite <- Z.pow_add_r by lia; f_equal; unfold k; lia).
    split.
    - apply Z.div_le_lower_bound; lia.
    - apply Z.div_lt_upper_bound; lia. }
  split; [| split; assumption].
  destruct n as [| p | p]; try lia.
  cbn [binary_normalize]. unfold binary_round.
  change (Zpos (digits2_pos p)) with d.
  rewrite fexp64.
  replace (Z.max (d + 0 - 53) (-1074)) with k by (unfold k; lia).
  unfold shl_align.
  destruct (k - 0) as [| j | j] eqn:Ej; try lia.
  unfold binary_round_aux at 1 2.
  unfold shr_fexp at 1 3.
  change (Zdigits2 (Zpos p)) with d.
  rewrite (Zdigits2_unique (Zpos p / 2 ^ k) 53)
    by (replace (53 - 1) with 52 by reflexivity; lia).
  rewrite !fexp64.
  replace (Z.max (d + 0 - 53) (-1074) - 0) with k by (unfold k; lia).
  replace (Z.max (53 + k - 53) (-1074) - k) with 0 by lia.
  cbn [shr_record_of_loc].
  rewrite shr_exact by lia.
  cbn [shr].
  destruct (loc_of_record_of_loc (Zpos p / 2 ^ k) (loc_of_shr_record (shifted (Zpos p) k)))
    as [-> ->].
  reflexivity.
Qed.

Lemma round_shifted (n k : Z) :
  0 < k ->
  round_nearest_even (n / 2 ^ k) (loc_of_shr_record (shifted n k))
  = if Z.odd (n / 2 ^ (k - 1))
       && (negb (n mod 2 ^ (k - 1) =? 0) || Z.odd (n / 2 ^ k))
    then n / 2 ^ k + 1 else n / 2 ^ k.
Proof.
  intros Hk. unfold shifted. rewrite round_of_record.
  replace (0 <? k) with true by (symmetry; apply Z.ltb_lt; lia).
  reflexivity.
Qed.

Lemma digits_le_1024 (n : Z) :
  0 < n < 2 ^ 1024 -> Zdigits2 n <= 1024.
Proof.
  intros [Hpos Hlt].
  destruct (Zdigits2_bounds n Hpos) as [[Hlo _] Hd].
  destruct (Z_le_gt_dec (Zdigits2 n) 1024) as [H | H]; [assumption | exfalso].
  assert (2 ^ 1024 <= 2 ^ (Zdigits2 n - 1)) by (apply Z.pow_le_mono_r; lia). lia.
Qed.

Lemma digits_ge_1024 (n : Z) :
  2 ^ 1023 <= n -> 1024 <= Zdigits2 n.
Proof.
  intros Hn.
  assert (Hpos : 0 < n) by (assert (0 < 2 ^ 1023) by reflexivity; lia).
  destruct (Zdigits2_bounds n Hpos) as [[_ Hhi] Hd].
  destruct (Z_le_gt_dec 1024 (Zdigits2 n)) as [H | H]; [assumption | exfalso].
  assert (2 ^ Zdigits2 n <= 2 ^ 1023) by (apply Z.pow_le_mono_r; lia). lia.
Qed.

(** With 1024 bits, the rounded mantissa carries into a 54th bit exactly
    from the overflow threshold on. *)
Lemma round_1024_bits (n : Z) :
  2 ^ 1023 <= n < 2 ^ 1024 ->
  (round_nearest_even (n / 2 ^ 971) (loc_of_shr_record (shifted n 971)) = 2 ^ 53
   <-> Float64.overflow_threshold <= n).
Proof.
  intros [Hlo Hhi]. unfold Float64.overflow_threshold.
  rewrite round_shifted by lia.
  replace (971 - 1) with 970 by reflexivity.
  assert (Hp : 0 < 2 ^ 970) by reflexivity.
  assert (E971 : 2 ^ 971 = 2 ^ 970 * 2) by reflexivity.
  assert (E1024 : 2 ^ 1024 = 2 ^ 970 * 2 ^ 54) by reflexivity.
  assert (E1023 : 2 ^ 1023 = 2 ^ 970 * 2 ^ 53) by reflexivity.
  rewrite E971, <- Z.div_div by lia.
  pose proof (Z.div_mod n (2 ^ 970) ltac:(lia)) as Hn.
  pose proof (Z.mod_pos_bound n (2 ^ 970) Hp) as Hr.
  set (t := n / 2 ^ 970) in *. set (u := n mod 2 ^ 970) in *.
  assert (Ht : 2 ^ 53 <= t < 2 ^ 54) by (change (2 ^ 53) with 9007199254740992 in *; change (2 ^ 54) with 18014398509481984 in *; nia).
  pose proof (Z.div_mod t 2 ltac:(lia)) as Ht2.
  pose proof (Z.mod_pos_bound t 2 ltac:(lia)) as Hb.
  rewrite (Zodd_mod t).
  change (2 ^ 53) with 9007199254740992 in *.
  change (2 ^ 54) with 18014398509481984 in *.
  destruct (Z.eqb_spec (t mod 2) 1) as [E | E]; cbn [andb].
  - rewrite (Zodd_mod (t / 2)).
    pose proof (Z.div_mod (t / 2) 2 ltac:(lia)) as Hh.
    pose proof (Z.mod_pos_bound (t / 2) 2 ltac:(lia)) as Hhb.
    destruct (Z.eqb_spec u 0) as [F | F]; cbn [negb orb].
    + destruct (Z.eqb_spec (t / 2 mod 2) 1) as [G | G]; split; intros; try nia.
    + split; intros; nia.
  - split; intros; nia.
Qed.

Lemma binary_normalize_finite (n : Z) :
  0 < n < Float64.overflow_threshold ->
  normal53 (binary_normalize Float64.prec Float64.emax n 0 false).
Proof.
  intros [Hpos Hlt].
  assert (Hthr : Float64.overflow_threshold < 2 ^ 1024) by reflexivity.
  destruct (Z_lt_ge_dec n (2 ^ 53)) as [Hs | Hl].
  - destruct (binary_normalize_small n (conj Hpos Hs)) as (-> & Hm & Hd).
    exists (Z.to_pos (n * 2 ^ (53 - Zdigits2 n))), (Zdigits2 n - 53).
    rewrite Z2Pos.id by lia. repeat split; lia.
  - destruct (binary_normalize_large n ltac:(lia)) as (-> & Hq & Hd).
    pose proof (digits_le_1024 n ltac:(lia)) as Hd'.
    rewrite binary_round_aux_53 by lia.
    set (k := Zdigits2 n - 53) in *.
    set (M' := round_nearest_even (n / 2 ^ k) (loc_of_shr_record (shifted n k))).
    assert (HM' : M' = n / 2 ^ k \/ M' = n / 2 ^ k + 1)
      by apply round_nearest_even_cases.
    destruct (Z.eqb_spec M' (2 ^ 53)) as [Heq | Hne].
    + destruct (Z.leb_spec (k + 1) 971) as [Hk | Hk].
      * exists (Z.to_pos (2 ^ 52)), (k + 1). repeat split; try lia; reflexivity.
      * exfalso.
        assert (Ek : k = 971) by lia.
        assert (Hn : 2 ^ 1023 <= n < 2 ^ 1024).
        { split; [| lia].
          destruct (Zdigits2_bounds n Hpos) as [[Hlo _] _].
          replace (Zdigits2 n - 1) with 1023 in Hlo by lia. assumption. }
        subst M'. rewrite Ek in Heq.
        apply (round_1024_bits n Hn) in Heq. lia.
    + destruct (Z.leb_spec k 971) as [Hk | Hk]; [| lia].
      exists (Z.to_pos M'), k.
      rewrite Z2Pos.id by lia. repeat split; lia.
Qed.

Lemma binary_normalize_overflow (n : Z) :
  Float64.overflow_threshold <= n ->
  binary_normalize Float64.prec Float64.emax n 0 false = S754_infinity false.
Proof.
  intros Hn.
  assert (Hthr : 2 ^ 1023 <= Float64.overflow_threshold) by (intro H; discriminate H).
  assert (H53 : 2 ^ 53 <= 2 ^ 1023) by (intro H; discriminate H).
  destruct (binary_normalize_large n ltac:(lia)) as (-> & Hq & Hd).
  pose proof (digits_ge_1024 n ltac:(lia)) as Hd'.
  rewrite binary_round_aux_53 by lia.
  set (k := Zdigits2 n - 53) in *.
  destruct (Z.leb_spec k 971) as [Hk | Hk].
  - assert (Ek : k = 971) by lia.
    assert (Hn' : 2 ^ 1023 <= n < 2 ^ 1024).
    { split; [lia |].
      assert (Hpos : 0 < n) by (assert (0 < 2 ^ 1023) by reflexivity; lia).
      destruct (Zdigits2_bounds n Hpos) as [[_ Hhi] _].
      replace (Zdigits2 n) with 1024 in Hhi by lia. assumption. }
    rewrite Ek.
    rewrite (proj2 (Z.eqb_eq _ _) (proj2 (round_1024_bits n Hn') Hn)).
    reflexivity.
  - destruct (Z.eqb_spec (round_nearest_even (n / 2 ^ k)
                (loc_of_shr_record (shifted n k))) (2 ^ 53)).
    + destruct (Z.leb_spec (k + 1) 971); [lia | reflexivity].
    + reflexivity.
Qed.

Lemma sqrt_53_bits (m' : Z) :
  2 ^ 104 <= m' < 2 ^ 106 -> 2 ^ 52 <= Z.sqrt m' < 2 ^ 53.
Proof.
  intros [Hlo Hhi].
  pose proof (Z.sqrt_spec m' ltac:(assert (0 < 2 ^ 104) by reflexivity; lia)) as Hs.
  cbv zeta in Hs. unfold Z.succ in Hs.
  assert (0 <= Z.sqrt m') by apply Z.sqrt_nonneg.
  change (2 ^ 104) with (2 ^ 52 * 2 ^ 52) in Hlo.
  change (2 ^ 106) with (2 ^ 53 * 2 ^ 53) in Hhi.
  change (2 ^ 52) with 4503599627370496 in *.
  change (2 ^ 53) with 9007199254740992 in *.
  split; nia.
Qed.

(** The square root of a normal binary64 number: an integer square root
    of the mantissa scaled to 105 or 106 bits, moved up by one when the
    remainder says the root lies past the midpoint. *)
Lemma SFsqrt_normal (m : positive) (e : Z) :
  2 ^ 52 <= Zpos m < 2 ^ 53 -> -52 <= e <= 971 ->
  let h := (54 + e) / 2 in
  let m' := Zpos m * 2 ^ (e - 2 * (h - 53)) in
  let q := Z.sqrt m' in
  let M' := if q <? m' - q * q then q + 1 else q in
  Float64.sqrt (S754_finite false m e) = S754_finite false (Z.to_pos M') (h - 53)
  /\ 2 ^ 52 <= M' < 2 ^ 53
  /\ 52 <= e - 2 * (h - 53) <= 53.
Proof.
  intros Hm He h m' q M'.
  pose proof (Z.div_mod (54 + e) 2 ltac:(lia)) as Hdm.
  pose proof (Z.mod_pos_bound (54 + e) 2 ltac:(lia)) as Hb.
  fold h in Hdm.
  assert (Hs : 52 <= e - 2 * (h - 53) <= 53) by lia.
  assert (Hm' : 2 ^ 104 <= m' < 2 ^ 106).
  { unfold m'.
    assert (Hc : e - 2 * (h - 53) = 52 \/ e - 2 * (h - 53) = 53) by lia.
    change (2 ^ 104) with (2 ^ 52 * 2 ^ 52).
    change (2 ^ 106) with (2 ^ 53 * 2 ^ 53).
    destruct Hc as [-> | ->].
    - change (2 ^ 53) with (2 ^ 52 * 2) in *.
      change (2 ^ 52) with 4503599627370496 in *. lia.
    - change (2 ^ 53) with (2 ^ 52 * 2) in *.
      change (2 ^ 52) with 4503599627370496 in *. lia. }
  pose proof (sqrt_53_bits m' Hm') as Hq. fold q in Hq.
  assert (HM' : 2 ^ 52 <= M' < 2 ^ 53).
  { unfold M'. destruct (Z.ltb_spec q (m' - q * q)) as [Hup | Hdown]; [| lia].
    split; [lia |].
    destruct (Z.eq_dec (q + 1) (2 ^ 53)) as [E | E]; [exfalso | lia].
    assert (Hle : m' <= (2 ^ 53 - 1) * 2 ^ 53).
    { unfold m'.
      assert (Hc : e - 2 * (h - 53) = 52 \/ e - 2 * (h - 53) = 53) by lia.
      destruct Hc as [-> | ->];
        change (2 ^ 53) with (2 ^ 52 * 2) in *;
        change (2 ^ 52) with 4503599627370496 in *; lia. }
    change (2 ^ 53) with 9007199254740992 in *. nia. }
  split; [| split; assumption].
  unfold Float64.sqrt, SFsqrt, SFsqrt_core_binary.
  rewrite (Zdigits2_unique (Zpos m) 53)
    by (replace (53 - 1) with 52 by reflexivity; lia).
  rewrite !Z.div2_div, fexp64.
  replace ((53 + e + 1) / 2) with h by (unfold h; f_equal; lia).
  assert (He2 : e / 2 = h - 27).
  { unfold h. replace (54 + e) with (e + 27 * 2) by lia.
    rewrite Z.div_add by lia. lia. }
  rewrite He2.
  replace (Z.min (Z.max (h - 53) (-1074)) (h - 27)) with (h - 53) by lia.
  destruct (e - 2 * (h - 53)) as [| s | s] eqn:Es; try lia.
  rewrite Z.shiftl_mul_pow2 by lia.
  fold m'.
  pose proof (Z.sqrtrem_spec m' ltac:(assert (0 < 2 ^ 104) by reflexivity; lia)) as Hspec.
  pose proof (Z.sqrtrem_sqrt m') as Hfst.
  destruct (Z.sqrtrem m') as [q0 r0].
  cbn [fst] in Hfst. subst q0. fold q in Hspec |- *.
  destruct Hspec as [Hval Hr].
  assert (Er : r0 = m' - q * q) by lia.
  rewrite binary_round_aux_53 by lia.
  assert (Ernd : round_nearest_even q
            (if r0 =? 0 then loc_Exact
             else loc_Inexact (if r0 <=? q then Lt else Gt)) = M').
  { unfold M'. rewrite <- Er.
    destruct (Z.eqb_spec r0 0) as [E0 | E0]; cbn [round_nearest_even].
    - destruct (Z.ltb_spec q r0); [lia | reflexivity].
    - destruct (Z.leb_spec r0 q); destruct (Z.ltb_spec q r0);
        cbn [round_nearest_even]; try lia; reflexivity. }
  rewrite Ernd.
  destruct (Z.eqb_spec M' (2 ^ 53)); [lia |].
  destruct (Z.leb_spec (h - 53) 971); [reflexivity | lia].
Qed.

Lemma to_int_finite (m : positive) (e : Z) :
  Float64.to_int (S754_finite false m e)
  = Return (if e <? 0 then Zpos m / 2 ^ (- e) else Zpos m * 2 ^ e).
Proof.
  unfold Float64.to_int. f_equal.
  destruct e as [| p | p].
  - rewrite Z.shiftl_mul_pow2 by lia. reflexivity.
  - rewrite Z.shiftl_mul_pow2 by lia. reflexivity.
  - rewrite Z.shiftr_div_pow2 by lia. reflexivity.
Qed.

(** The arithmetic behind [int(sqrt(n))]: scaling [n] by [P * P],
    taking the integer root and rounding it to nearest still truncates
    to the integer root of [n], as long as that root is below [P]. *)
Lemma scaled_root_truncates (n P : Z) :
  0 <= n -> 0 < P -> Z.sqrt n + 1 <= P ->
  let q := Z.sqrt (n * (P * P)) in
  let M' := if q <? n * (P * P) - q * q then q + 1 else q in
  Z.sqrt n * P <= M' < (Z.sqrt n + 1) * P.
Proof.
  intros Hn HP Hk q M'.
  pose proof (Z.sqrt_spec n Hn) as Hs. cbv zeta in Hs. unfold Z.succ in Hs.
  pose proof (Z.sqrt_nonneg n) as Hk0.
  assert (Hm : 0 <= n * (P * P)) by nia.
  pose proof (Z.sqrt_spec _ Hm) as Hq. cbv zeta in Hq. unfold Z.succ in Hq.
  fold q in Hq.
  pose proof (Z.sqrt_nonneg (n * (P * P))) as Hq0. fold q in Hq0.
  set (k := Z.sqrt n) in *.
  assert (Hlow : k * P <= q).
  { destruct (Z_le_gt_dec (k * P) q) as [H | H]; [assumption | exfalso].
    assert (q + 1 <= k * P) by lia.
    assert ((q + 1) * (q + 1) <= (k * P) * (k * P)) by nia.
    assert ((k * P) * (k * P) = (k * k) * (P * P)) by ring.
    nia. }
  assert (Hhigh : q + 1 <= (k + 1) * P).
  { destruct (Z_le_gt_dec (q + 1) ((k + 1) * P)) as [H | H]; [assumption | exfalso].
    assert ((k + 1) * P <= q) by lia.
    assert (((k + 1) * P) * ((k + 1) * P) <= q * q) by nia.
    assert (((k + 1) * P) * ((k + 1) * P) = ((k + 1) * (k + 1)) * (P * P)) by ring.
    nia. }
  unfold M'. destruct (Z.ltb_spec q (n * (P * P) - q * q)) as [Hup | Hdown]; [| lia].
  split; [lia |].
  destruct (Z.eq_dec (q + 1) ((k + 1) * P)) as [E | E]; [exfalso | lia].
  assert (Eq : q = (k + 1) * P - 1) by lia.
  assert (Hqq : q * q + q = ((k + 1) * (k + 1)) * (P * P) - (k + 1) * P)
    by (rewrite Eq; ring).
  assert (Hn1 : n + 1 <= (k + 1) * (k + 1)) by lia.
  assert (Hn2 : (n + 1) * (P * P) <= ((k + 1) * (k + 1)) * (P * P)) by nia.
  assert (Hc : P * P < (k + 1) * P) by lia.
  nia.
Qed.

Lemma sqrt_lt_pow2 (n h : Z) :
  0 <= h -> 0 <= n < 2 ^ (2 * h) -> Z.sqrt n < 2 ^ h.
Proof.
  intros Hh [Hn Hlt].
  apply Z.sqrt_lt_square; [assumption | apply Z.pow_nonneg; lia |].
  rewrite <- Z.pow_add_r by lia. replace (h + h) with (2 * h) by lia. assumption.
Qed.


(** Rounding to nearest moves an int by at most half a unit of the last
    place that is kept. *)
Lemma rounded_value_close (n k : Z) :
  0 <= n -> 0 < k ->
  let R := round_nearest_even (n / 2 ^ k) (loc_of_shr_record (shifted n k)) in
  2 * n - 2 ^ k <= 2 * (R * 2 ^ k) <= 2 * n + 2 ^ k.
Proof.
  intros Hn Hk R. unfold R. rewrite round_shifted by assumption.
  assert (Ha : 0 < 2 ^ (k - 1)) by (apply Z.pow_pos_nonneg; lia).
  assert (E2 : 2 ^ k = 2 ^ (k - 1) * 2).
  { replace k with (Z.succ (k - 1)) at 1 by lia. rewrite Z.pow_succ_r by lia. lia. }
  set (a := 2 ^ (k - 1)) in *.
  rewrite E2, <- Z.div_div by lia.
  pose proof (Z.div_mod n a ltac:(lia)) as Hdm.
  pose proof (Z.mod_pos_bound n a Ha) as Hu.
  set (t := n / a) in *. set (u := n mod a) in *.
  pose proof (Z.div_mod t 2 ltac:(lia)) as Ht.
  pose proof (Z.mod_pos_bound t 2 ltac:(lia)) as Hb.
  rewrite (Zodd_mod t).
  set (M := t / 2) in *. set (b := t mod 2) in *.
  assert (En : n = a * 2 * M + (a * b + u)) by (rewrite Hdm, Ht; ring).
  clearbody M b t u a. clear Hdm Ht E2 Hn Hk R.
  destruct (Z.eqb_spec b 1) as [E | E]; cbn [andb].
  - subst b.
    destruct (Z.eqb_spec u 0) as [F | F]; cbn [negb orb].
    + destruct (Z.odd M); lia.
    + lia.
  - assert (b = 0) by lia. subst b. lia.
Qed.

Lemma square_le_mono (a b : Z) : 0 <= a <= b -> a * a <= b * b.
Proof. intros [Ha Hab]. apply Z.mul_le_mono_nonneg; lia. Qed.

(** The rounded integer root [M'] of [W], when [W] lies between
    [A * A - A + 1] and just above [(A + P) * (A + P)]. *)
Lemma rounded_root_core (A P W q : Z) :
  1 <= P <= A -> 0 <= q -> q * q <= W < (q + 1) * (q + 1) ->
  A * A - A + 1 <= W <= (A + P) * (A + P) + A - P - P * P ->
  let M' := if q <? W - q * q then q + 1 else q in
  A <= M' < A + 2 * P.
Proof.
  intros HP Hq0 [Hq1 Hq2] [HW1 HW2] M'. unfold M'. split.
  - destruct (Z_le_gt_dec A q) as [Hge | Hlt].
    + destruct (q <? W - q * q); lia.
    + assert (Eq : q = A - 1).
      { destruct (Z_le_gt_dec (A - 1) q) as [H | H]; [lia | exfalso].
        pose proof (square_le_mono (q + 1) (A - 1) ltac:(lia)) as Hsq.
        replace ((A - 1) * (A - 1)) with (A * A - 2 * A + 1) in Hsq by ring.
        lia. }
      subst q.
      replace ((A - 1) * (A - 1)) with (A * A - 2 * A + 1) in * by ring.
      destruct (Z.ltb_spec (A - 1) (W - (A * A - 2 * A + 1))); lia.
  - destruct (Z_le_gt_dec (A + P) q) as [Hge | Hlt].
    + pose proof (square_le_mono (A + P) q ltac:(lia)) as Hsq.
      assert (HPP : 1 <= P * P) by (pose proof (square_le_mono 1 P ltac:(lia)); lia).
      destruct (Z.ltb_spec q (W - q * q)) as [Hup | Hdown]; [lia |].
      destruct (Z_le_gt_dec (A + 2 * P) q) as [H | H]; [exfalso | lia].
      pose proof (square_le_mono (A + 2 * P) q ltac:(lia)) as Hsq2.
      replace ((A + 2 * P) * (A + 2 * P))
        with ((A + P) * (A + P) + 2 * (A * P) + 3 * (P * P)) in Hsq2 by ring.
      assert (HAP : A <= A * P).
      { replace A with (A * 1) at 1 by ring. apply Z.mul_le_mono_nonneg_l; lia. }
      lia.
    + destruct (q <? W - q * q); lia.
Qed.

(** The arithmetic behind [int(sqrt(n))] for a large [n]: when the float
    [V] nearest to [n] is within [delta] of it, the rounded root of
    [V * P * P] truncates to the integer root of [n] or to one more. *)
Lemma rounded_root_bounds (n V P delta : Z) :
  0 < P -> 0 <= delta -> n - delta <= V <= n + delta ->
  delta * P < Z.sqrt n ->
  let q := Z.sqrt (V * (P * P)) in
  let M' := if q <? V * (P * P) - q * q then q + 1 else q in
  Z.sqrt n * P <= M' < (Z.sqrt n + 2) * P.
Proof.
  intros HP Hdelta HV Hclose q M'.
  assert (HdP0 : 0 <= delta * P) by (apply Z.mul_nonneg_nonneg; lia).
  assert (Hn : 0 <= n).
  { destruct (Z_lt_le_dec n 0) as [H | H]; [| assumption].
    rewrite Z.sqrt_neg in Hclose by assumption. lia. }
  pose proof (Z.sqrt_spec n Hn) as Hs. cbv zeta in Hs. unfold Z.succ in Hs.
  set (k := Z.sqrt n) in *.
  assert (Hk1 : 1 <= k) by lia.
  assert (HPP : 0 <= P * P) by (apply Z.mul_nonneg_nonneg; lia).
  assert (HdPP : delta * (P * P) <= (k - 1) * P).
  { replace (delta * (P * P)) with (delta * P * P) by ring.
    apply Z.mul_le_mono_nonneg_r; lia. }
  assert (Hd : delta <= delta * P).
  { replace delta with (delta * 1) at 1 by ring.
    apply Z.mul_le_mono_nonneg_l; lia. }
  assert (HAP : P <= k * P).
  { replace P with (1 * P) at 1 by ring. apply Z.mul_le_mono_nonneg_r; lia. }
  assert (Hlower : k * P * (k * P) - k * P + 1 <= V * (P * P)).
  { assert (H1 : (k * k - delta) * (P * P) <= V * (P * P))
      by (apply Z.mul_le_mono_nonneg_r; lia).
    replace ((k * k - delta) * (P * P))
      with (k * P * (k * P) - delta * (P * P)) in H1 by ring.
    replace ((k - 1) * P) with (k * P - P) in HdPP by ring. lia. }
  assert (Hupper : V * (P * P)
                   <= (k * P + P) * (k * P + P) + k * P - P - P * P).
  { assert (H1 : V * (P * P) <= ((k + 1) * (k + 1) - 1 + delta) * (P * P))
      by (apply Z.mul_le_mono_nonneg_r; lia).
    replace (((k + 1) * (k + 1) - 1 + delta) * (P * P))
      with ((k * P + P) * (k * P + P) - P * P + delta * (P * P)) in H1 by ring.
    replace ((k - 1) * P) with (k * P - P) in HdPP by ring. lia. }
  assert (Hm : 0 <= V * (P * P)).
  { assert (0 <= k * P * (k * P) - k * P)
      by (pose proof (square_le_mono 1 (k * P) ltac:(lia));
          assert (k * P <= k * P * (k * P))
            by (replace (k * P) with (k * P * 1) at 1 by ring;
                apply Z.mul_le_mono_nonneg_l; lia);
          lia).
    lia. }
  pose proof (Z.sqrt_spec _ Hm) as Hq. cbv zeta in Hq. unfold Z.succ in Hq.
  pose proof (Z.sqrt_nonneg (V * (P * P))) as Hq0.
  fold q in Hq, Hq0.
  pose proof (rounded_root_core (k * P) P (V * (P * P)) q
                ltac:(lia) Hq0 Hq (conj Hlower Hupper)) as Hcore.
  cbv zeta in Hcore. fold M' in Hcore.
  replace ((k + 2) * P) with (k * P + 2 * P) by ring. exact Hcore.
Qed.


(** [int(sqrt(x))] for a float [x] of integer value, within half a unit
    in the last place of an int [n] below [2 ^ 106]: the integer square
    root of [n], or one more. *)
Lemma int_sqrt_float_close (m : positive) (e n : Z) :
  2 ^ 52 <= Zpos m < 2 ^ 53 -> 0 <= e <= 53 ->
  2 * n - 2 ^ e <= 2 * (Zpos m * 2 ^ e) <= 2 * n + 2 ^ e ->
  exists root,
    Float64.sqrt (S754_finite false m e) <> S754_nan
    /\ Float64.to_int (Float64.sqrt (S754_finite false m e)) = Return root
    /\ Z.sqrt n <= root <= Z.sqrt n + 1.
Proof.
  intros Hm He Hclose.
  destruct (SFsqrt_normal m e Hm ltac:(lia)) as (Hsqrt & HM' & Hs).
  cbv zeta in Hsqrt, HM', Hs.
  pose proof (Z.div_mod (54 + e) 2 ltac:(lia)) as Hdm.
  pose proof (Z.mod_pos_bound (54 + e) 2 ltac:(lia)) as Hb.
  set (h := (54 + e) / 2) in *.
  assert (Hh : 27 <= h <= 53) by lia.
  set (P := 2 ^ (53 - h)).
  set (T := 2 ^ e).
  assert (HP : 0 < P) by (apply Z.pow_pos_nonneg; lia).
  assert (HT : 0 < T) by (apply Z.pow_pos_nonneg; lia).
  assert (HP26 : P <= 2 ^ 26) by (apply Z.pow_le_mono_r; lia).
  assert (ETPP : T * (P * P) = 2 ^ (e - 2 * (h - 53))).
  { unfold T, P. rewrite <- !Z.pow_add_r by lia. f_equal. lia. }
  assert (HTPP : T * (P * P) <= 2 ^ 53).
  { rewrite ETPP. apply Z.pow_le_mono_r; lia. }
  assert (Em : Zpos m * 2 ^ (e - 2 * (h - 53)) = Zpos m * T * (P * P))
    by (rewrite <- ETPP; ring).
  rewrite Em in Hsqrt, HM'.
  set (V := Zpos m * T) in *.
  set (q := Z.sqrt (V * (P * P))) in *.
  set (M' := if q <? V * (P * P) - q * q then q + 1 else q) in *.
  set (delta := T / 2).
  pose proof (Z.div_mod T 2 ltac:(lia)) as HTd.
  pose proof (Z.mod_pos_bound T 2 ltac:(lia)) as HTb.
  fold delta in HTd.
  assert (Hdelta : 0 <= delta) by (apply Z.div_pos; lia).
  assert (HV : n - delta <= V <= n + delta) by lia.
  assert (HVlow : 2 ^ 52 * T <= V) by (apply Z.mul_le_mono_nonneg_r; lia).
  assert (Hn : 0 <= n).
  { change (2 ^ 52) with 4503599627370496 in HVlow. lia. }
  assert (Hroot : delta * P < Z.sqrt n).
  { assert (HY0 : 0 <= delta * P) by (apply Z.mul_nonneg_nonneg; lia).
    assert (HY : 2 * (delta * P) <= T * P).
    { replace (2 * (delta * P)) with (2 * delta * P) by ring.
      apply Z.mul_le_mono_nonneg_r; lia. }
    assert (HTP : T * P <= T * 2 ^ 26) by (apply Z.mul_le_mono_nonneg_l; lia).
    pose proof (square_le_mono (2 * (delta * P)) (T * P) ltac:(lia)) as Hsq.
    assert (HTT : T * P * (T * P) <= T * 2 ^ 53).
    { replace (T * P * (T * P)) with (T * (T * (P * P))) by ring.
      apply Z.mul_le_mono_nonneg_l; lia. }
    assert (Hle : (delta * P + 1) * (delta * P + 1) <= n).
    { assert (H4 : 4 * ((delta * P + 1) * (delta * P + 1))
                   = 2 * (delta * P) * (2 * (delta * P)) + 8 * (delta * P) + 4)
        by ring.
      change (2 ^ 26) with 67108864 in *.
      change (2 ^ 52) with 4503599627370496 in *.
      change (2 ^ 53) with 9007199254740992 in *.
      lia. }
    assert (delta * P + 1 <= Z.sqrt n) by (apply Z.sqrt_le_square; lia).
    lia. }
  pose proof (rounded_root_bounds n V P delta HP Hdelta HV Hroot) as Hbounds.
  cbv zeta in Hbounds. fold q in Hbounds. fold M' in Hbounds.
  exists (M' / P).
  rewrite Hsqrt. split; [discriminate |].
  rewrite to_int_finite, Z2Pos.id by lia.
  split.
  - f_equal. destruct (Z.ltb_spec (h - 53) 0) as [Hneg | Hzero].
    + replace (- (h - 53)) with (53 - h) by lia. reflexivity.
    + assert (Eh : h = 53) by lia.
      unfold P. rewrite Eh. cbn. rewrite Z.div_1_r. lia.
  - split.
    + apply Z.div_le_lower_bound; lia.
    + assert (M' / P < Z.sqrt n + 2) by (apply Z.div_lt_upper_bound; lia). lia.
Qed.

End Binary64.

(** * [int(sqrt(number))] *)

Section IntSqrt.

Lemma int_sqrt_returns (n : Z) :
  0 <= n < Float64.overflow_threshold -> exists root, int_sqrt n = Return root.
Proof.
  intros [Hn Hlt]. unfold int_sqrt, math_sqrt, Float64.of_int.
  destruct (Z.eq_dec n 0) as [-> | Hnz]; [exists 0; reflexivity |].
  destruct (binary_normalize_finite n ltac:(lia)) as (m & e & -> & Hm & He).
  destruct (SFsqrt_normal m e Hm He) as (-> & _ & _).
  rewrite to_int_finite. eexists; reflexivity.
Qed.

Lemma int_sqrt_overflow (n : Z) :
  Float64.overflow_threshold <= n -> int_sqrt n = Raise OverflowError.
Proof.
  intros Hn. unfold int_sqrt, math_sqrt, Float64.of_int.
  rewrite binary_normalize_overflow by assumption. reflexivity.
Qed.

(** Below [2 ^ 52] the floating-point detour is invisible:
    [int(sqrt(n))] is the integer square root. *)
Lemma int_sqrt_exact (n : Z) :
  0 <= n < 2 ^ 52 -> int_sqrt n = Return (Z.sqrt n).
Proof.
  intros [Hn Hlt]. unfold int_sqrt, math_sqrt, Float64.of_int.
  destruct (Z.eq_dec n 0) as [-> | Hnz]; [reflexivity |].
  assert (H5253 : 2 ^ 52 < 2 ^ 53) by reflexivity.
  destruct (binary_normalize_small n ltac:(lia)) as (-> & Hm & Hd).
  destruct (Zdigits2_bounds n ltac:(lia)) as [[Hlo Hhi] _].
  set (d := Zdigits2 n) in *.
  assert (Hd52 : d <= 52).
  { destruct (Z_le_gt_dec d 52) as [H | H]; [assumption | exfalso].
    assert (2 ^ 52 <= 2 ^ (d - 1)) by (apply Z.pow_le_mono_r; lia). lia. }
  assert (Hmpos : Zpos (Z.to_pos (n * 2 ^ (53 - d))) = n * 2 ^ (53 - d))
    by (apply Z2Pos.id; lia).
  destruct (SFsqrt_normal (Z.to_pos (n * 2 ^ (53 - d))) (d - 53)
              ltac:(rewrite Hmpos; exact Hm) ltac:(lia)) as (Hsqrt & _ & _).
  cbv zeta in Hsqrt. rewrite Hmpos in Hsqrt.
  pose proof (Z.div_mod (54 + (d - 53)) 2 ltac:(lia)) as Hdm.
  pose proof (Z.mod_pos_bound (54 + (d - 53)) 2 ltac:(lia)) as Hb.
  set (h := (54 + (d - 53)) / 2) in *.
  assert (Hh : 1 <= h <= 26) by lia.
  set (P := 2 ^ (53 - h)).
  assert (HP : 0 < P) by (apply Z.pow_pos_nonneg; lia).
  assert (Em : n * 2 ^ (53 - d) * 2 ^ (d - 53 - 2 * (h - 53)) = n * (P * P)).
  { unfold P. rewrite <- Z.mul_assoc, <- !Z.pow_add_r by lia.
    do 2 f_equal. lia. }
  rewrite Em in Hsqrt.
  assert (Hk : Z.sqrt n < 2 ^ h).
  { apply sqrt_lt_pow2; [lia |]. split; [lia |].
    assert (2 ^ d <= 2 ^ (2 * h)) by (apply Z.pow_le_mono_r; lia). lia. }
  assert (HhP : 2 ^ h * P = 2 ^ 53)
    by (unfold P; rewrite <- Z.pow_add_r by lia; f_equal; lia).
  assert (Hh26 : 2 ^ h <= 2 ^ 26) by (apply Z.pow_le_mono_r; lia).
  assert (HP27 : 2 ^ 27 <= P) by (apply Z.pow_le_mono_r; lia).
  assert (H2627 : 2 ^ 26 < 2 ^ 27) by reflexivity.
  pose proof (scaled_root_truncates n P Hn HP ltac:(lia)) as Hroot.
  cbv zeta in Hroot.
  set (q := Z.sqrt (n * (P * P))) in *.
  set (M' := if q <? n * (P * P) - q * q then q + 1 else q) in *.
  pose proof (Z.sqrt_nonneg n) as Hk0.
  assert (HM53 : M' < 2 ^ 53) by nia.
  rewrite Hsqrt.
  rewrite to_int_finite.
  destruct (Z.ltb_spec (h - 53) 0) as [_ | H]; [| lia].
  replace (- (h - 53)) with (53 - h) by lia. fold P.
  assert (HMpos : 0 < M').
  { assert (0 < q).
    { unfold q. apply Z.sqrt_pos. nia. }
    unfold M'. destruct (q <? n * (P * P) - q * q); lia. }
  rewrite Z2Pos.id by assumption.
  f_equal. symmetry.
  apply Z.div_unique with (r := M' - Z.sqrt n * P); lia.
Qed.

Lemma sqrt_then_int (x : spec_float) :
  Float64.sqrt x <> S754_nan ->
  match
    match Float64.sqrt x with
    | S754_nan => Raise (ValueError "math domain error")
    | y => Return y
    end
  with
  | Return y => Float64.to_int y
  | Raise e => Raise e
  end = Float64.to_int (Float64.sqrt x).
Proof. destruct (Float64.sqrt x); intros H; try reflexivity. congruence. Qed.

Lemma digits_le (n b : Z) : 0 < n < 2 ^ b -> Zdigits2 n <= b.
Proof.
  intros [Hpos Hlt].
  destruct (Zdigits2_bounds n Hpos) as [[Hlo _] Hd].
  destruct (Z_le_gt_dec (Zdigits2 n) b) as [H | H]; [assumption | exfalso].
  assert (2 ^ b <= 2 ^ (Zdigits2 n - 1)).
  { destruct (Z_lt_le_dec b 0) as [Hb | Hb].
    - rewrite Z.pow_neg_r in Hlt by assumption. lia.
    - apply Z.pow_le_mono_r; lia. }
  lia.
Qed.

(** From [2 ^ 52] up to [2 ^ 106], [int(sqrt(n))] is the integer square
    root or one more. *)
Lemma int_sqrt_close (n : Z) :
  2 ^ 52 <= n < 2 ^ 106 ->
  exists root, int_sqrt n = Return root /\ Z.sqrt n <= root <= Z.sqrt n + 1.
Proof.
  intros [Hlo Hhi]. unfold int_sqrt, math_sqrt, Float64.of_int.
  assert (H52 : 0 < 2 ^ 52) by reflexivity.
  destruct (Z_lt_ge_dec n (2 ^ 53)) as [Hs | Hl].
  - destruct (binary_normalize_small n ltac:(lia)) as (-> & Hm & Hd).
    rewrite (Zdigits2_unique n 53) in *
      by (replace (53 - 1) with 52 by reflexivity; lia).
    replace (53 - 53) with 0 in * by reflexivity.
    rewrite Z.pow_0_r, Z.mul_1_r in *.
    destruct (int_sqrt_float_close (Z.to_pos n) 0 n) as (root & Hnan & Hint & Hb).
    + rewrite Z2Pos.id by lia. lia.
    + lia.
    + rewrite Z2Pos.id, Z.pow_0_r by lia. lia.
    + exists root. rewrite sqrt_then_int by assumption. split; assumption.
  - destruct (binary_normalize_large n ltac:(lia)) as (-> & Hq & Hd).
    pose proof (digits_le n 106 ltac:(lia)) as Hd'.
    rewrite binary_round_aux_53 by lia.
    set (k := Zdigits2 n - 53) in *.
    assert (Hk : 1 <= k <= 53) by lia.
    pose proof (rounded_value_close n k ltac:(lia) ltac:(lia)) as Hclose.
    cbv zeta in Hclose.
    set (R := round_nearest_even (n / 2 ^ k) (loc_of_shr_record (shifted n k))) in *.
    assert (HR : R = n / 2 ^ k \/ R = n / 2 ^ k + 1)
      by apply round_nearest_even_cases.
    assert (Hpk : 0 < 2 ^ k) by (apply Z.pow_pos_nonneg; lia).
    destruct (Z.eqb_spec R (2 ^ 53)) as [Hcarry | Hcarry].
    + destruct (Z.leb_spec (k + 1) 971) as [_ | H]; [| lia].
      destruct (Z_le_gt_dec k 52) as [Hk52 | Hk53].
      * destruct (int_sqrt_float_close (Z.to_pos (2 ^ 52)) (k + 1) n)
          as (root & Hnan & Hint & Hb).
        -- split; [apply Z.le_refl | reflexivity].
        -- lia.
        -- rewrite Z.pow_add_r, Z.pow_1_r by lia.
           change (Zpos (Z.to_pos (2 ^ 52))) with (2 ^ 52).
           rewrite Hcarry in Hclose.
           change (2 ^ 53) with (2 ^ 52 * 2) in Hclose. lia.
        -- exists root. rewrite sqrt_then_int by assumption. split; assumption.
      * assert (Ek : k = 53) by lia. rewrite Ek in *.
        exists (2 ^ 53). split; [reflexivity |].
        assert (Hdiv : n / 2 ^ 53 = 2 ^ 53 - 1) by lia.
        pose proof (Z.div_mod n (2 ^ 53) ltac:(lia)) as Hdm.
        pose proof (Z.mod_pos_bound n (2 ^ 53) ltac:(lia)) as Hmod.
        rewrite Hdiv in Hdm.
        assert (Hsqrt : Z.sqrt n = 2 ^ 53 - 1).
        { apply Z.sqrt_unique. unfold Z.succ.
          change (2 ^ 106) with (2 ^ 53 * 2 ^ 53) in Hhi.
          change (2 ^ 53) with 9007199254740992 in *. lia. }
        rewrite Hsqrt. lia.
    + destruct (Z.leb_spec k 971) as [_ | H]; [| lia].
      destruct (int_sqrt_float_close (Z.to_pos R) k n) as (root & Hnan & Hint & Hb).
      * rewrite Z2Pos.id by lia. lia.
      * lia.
      * rewrite Z2Pos.id by lia. lia.
      * exists root. rewrite sqrt_then_int by assumption. split; assumption.
Qed.

(** The first int whose float square root truncates past the integer
    square root, and an int beyond [2 ^ 106] whose float square root
    truncates below it. *)
Example int_sqrt_inexact :
  int_sqrt (2 ^ 52 + 2 ^ 27) = Return (2 ^ 26 + 1)
  /\ Z.sqrt (2 ^ 52 + 2 ^ 27) = 2 ^ 26
  /\ int_sqrt ((2 ^ 53 + 1) * (2 ^ 53 + 1)) = Return (2 ^ 53)
  /\ Z.sqrt ((2 ^ 53 + 1) * (2 ^ 53 + 1)) = 2 ^ 53 + 1.
Proof. repeat split; reflexivity. Qed.

End IntSqrt.

(** * [range] *)

Section Range.

Lemma In_range_from (x start : Z) (len : nat) :
  In x (range_from start len) <-> start <= x < start + Z.of_nat len.
Proof.
  revert start. induction len as [| len IH]; intros start.
  - cbn [range_from In]. lia.
  - cbn [range_from In]. rewrite IH. lia.
Qed.

Lemma In_range (x start stop : Z) :
  In x (range start stop) <-> start <= x < stop.
Proof. unfold range. rewrite In_range_from. lia. Qed.

Lemma NoDup_range_from (start : Z) (len : nat) : NoDup (range_from start len).
Proof.
  revert start. induction len as [| len IH]; intros start; cbn [range_from].
  - constructor.
  - constructor; [| apply IH]. rewrite In_range_from. lia.
Qed.

Lemma NoDup_range (start stop : Z) : NoDup (range start stop).
Proof. apply NoDup_range_from. Qed.

Lemma range_from_snoc (start : Z) (len : nat) :
  range_from start (S len) = range_from start len ++ [start + Z.of_nat len].
Proof.
  revert start. induction len as [| len IH]; intros start.
  - cbn. rewrite Z.add_0_r. reflexivity.
  - change (range_from start (S (S len)))
      with (start :: range_from (start + 1) (S len)).
    rewrite IH. cbn [range_from app]. do 3 f_equal. lia.
Qed.

Lemma range_snoc (start stop : Z) :
  start <= stop -> range start (stop + 1) = range start stop ++ [stop].
Proof.
  intros H. unfold range.
  replace (Z.to_nat (stop + 1 - start)) with (S (Z.to_nat (stop - start))) by lia.
  rewrite range_from_snoc. do 2 f_equal. lia.
Qed.

Lemma range_empty (start stop : Z) : stop <= start -> range start stop = [].
Proof.
  intros H. unfold range.
  replace (Z.to_nat (stop - start)) with O by lia. reflexivity.
Qed.

End Range.

(** * [is_prime] *)

Section IsPrime.

Lemma is_prime_loop_true (number : Z) (elements : list Z) :
  is_prime_loop number elements = true
  <-> forall element, In element elements -> number mod element <> 0.
Proof.
  induction elements as [| element rest IH]; cbn [is_prime_loop In].
  - split; [intros _ d [] | reflexivity].
  - destruct (Z.eqb_spec (number mod element) 0) as [E | E].
    + split; [discriminate |]. intros H. exfalso. apply (H element); auto.
    + rewrite IH. split.
      * intros H d [<- | Hd]; auto.
      * intros H d Hd. apply H. auto.
Qed.

Lemma is_prime_below_2 (number : Z) :
  number < 2 -> is_prime number = Return false.
Proof.
  intros H. unfold is_prime.
  destruct (Z.ltb_spec number 2); [reflexivity | lia].
Qed.

Lemma threshold_large : 2 ^ 106 < Float64.overflow_threshold.
Proof. reflexivity. Qed.

Lemma is_prime_returns (number : Z) :
  number < Float64.overflow_threshold -> exists b, is_prime number = Return b.
Proof.
  intros H. unfold is_prime.
  destruct (Z.ltb_spec number 2) as [Hlt | Hge]; [eexists; reflexivity |].
  destruct (int_sqrt_returns number ltac:(lia)) as [root ->].
  eexists; reflexivity.
Qed.

Lemma is_prime_overflow (number : Z) :
  Float64.overflow_threshold <= number -> is_prime number = Raise OverflowError.
Proof.
  intros H. pose proof threshold_large as Hthr.
  assert (H106 : 2 < 2 ^ 106) by reflexivity.
  unfold is_prime.
  destruct (Z.ltb_spec number 2) as [Hlt | Hge]; [lia |].
  rewrite int_sqrt_overflow by assumption. reflexivity.
Qed.

Lemma Prime_no_divisor (n : Z) :
  2 <= n -> (Prime n <-> no_divisor_up_to_sqrt n).
Proof.
  intros Hn. unfold Prime, no_divisor_up_to_sqrt. split.
  - intros [_ H] d Hd Hsq Hdiv.
    destruct (H d ltac:(lia) Hdiv) as [E | E]; [lia | nia].
  - intros H. split; [lia |].
    intros d Hd [c Hc].
    destruct (Z.eq_dec d 1) as [E1 | E1]; [auto |].
    destruct (Z.eq_dec d n) as [En | En]; [auto |].
    exfalso.
    assert (Hc0 : 0 < c).
    { destruct (Z_lt_le_dec 0 c) as [G | G]; [assumption | exfalso]. nia. }
    assert (Hc1 : 1 < c).
    { destruct (Z.eq_dec c 1) as [G | G]; [exfalso; subst c; lia | lia]. }
    assert (Hd1 : 1 < d) by lia.
    destruct (Z_le_gt_dec d c) as [Hdc | Hdc].
    + apply (H d); [lia | nia | exists c; assumption].
    + apply (H c); [lia | nia | exists d; lia].
Qed.

Lemma not_Prime_below_2 (n : Z) : n < 2 -> ~ Prime n.
Proof. intros H [H1 _]. lia. Qed.

(** Below [2 ^ 106] the last trial divisor [int(sqrt(n))] is at least the
    integer square root of [n] and less than [n]. *)
Lemma int_sqrt_root (n : Z) :
  2 <= n < 2 ^ 106 ->
  exists root,
    int_sqrt n = Return root
    /\ Z.sqrt n <= root <= Z.sqrt n + 1
    /\ root < n
    /\ (n < 2 ^ 52 -> root = Z.sqrt n).
Proof.
  intros [Hlo Hhi].
  destruct (Z_lt_ge_dec n (2 ^ 52)) as [Hs | Hl].
  - exists (Z.sqrt n). split; [apply int_sqrt_exact; lia |].
    pose proof (Z.sqrt_lt_lin n ltac:(lia)). pose proof (Z.sqrt_nonneg n).
    repeat split; lia.
  - destruct (int_sqrt_close n ltac:(lia)) as (root & Hret & Hb).
    exists root. split; [assumption |]. split; [assumption |].
    split; [| lia].
    assert (Hk : 2 ^ 26 <= Z.sqrt n).
    { apply Z.sqrt_le_square; [lia | apply Z.pow_nonneg; lia |].
      change (2 ^ 26 * 2 ^ 26) with (2 ^ 52). lia. }
    pose proof (Z.sqrt_spec n ltac:(lia)) as Hspec. cbv zeta in Hspec.
    change (2 ^ 26) with 67108864 in Hk.
    assert (Z.sqrt n + 1 < Z.sqrt n * Z.sqrt n) by nia.
    lia.
Qed.

Lemma trial_division_Prime (n root : Z) :
  2 <= n -> Z.sqrt n <= root < n ->
  (is_prime_loop n (range 2 (root + 1)) = true <-> Prime n).
Proof.
  intros Hn [Hlo Hhi]. rewrite is_prime_loop_true. split.
  - intros H. apply Prime_no_divisor; [assumption |].
    intros d Hd Hsq Hdiv.
    apply (H d).
    + apply In_range. split; [assumption |].
      assert (d <= Z.sqrt n) by (apply Z.sqrt_le_square; lia). lia.
    + apply Z.mod_divide; [lia | assumption].
  - intros [_ Hp] d Hd Hmod. apply In_range in Hd.
    destruct (Hp d ltac:(lia)) as [E | E]; [| lia | lia].
    apply Z.mod_divide; [lia | assumption].
Qed.

(** Below [2 ^ 106], [is_prime] decides primality. *)
Lemma is_prime_correct (n : Z) :
  n < 2 ^ 106 ->
  exists b, is_prime n = Return b /\ (b = true <-> Prime n).
Proof.
  intros Hhi. destruct (Z_lt_ge_dec n 2) as [Hlt | Hge].
  - exists false. split; [apply is_prime_below_2; assumption |].
    split; [discriminate |]. intros H. exfalso. exact (not_Prime_below_2 n Hlt H).
  - destruct (int_sqrt_root n ltac:(lia)) as (root & Hret & Hb & Hlt & _).
    eexists. split.
    + unfold is_prime. destruct (Z.ltb_spec n 2) as [H | H]; [lia |].
      rewrite Hret. reflexivity.
    + apply trial_division_Prime; lia.
Qed.

End IsPrime.

(** * The counting loop *)

Section Counting.

Lemma count_loop_app (l1 l2 : list Z) (count : Z) :
  count_loop (l1 ++ l2) count
  = match count_loop l1 count with
    | Return count' => count_loop l2 count'
    | Raise e => Raise e
    end.
Proof.
  revert count. induction l1 as [| number rest IH]; intros count.
  - reflexivity.
  - cbn [app count_loop].
    destruct (is_prime number) as [[|] | e]; auto.
Qed.

Lemma count_loop_returns (numbers : list Z) (count : Z) :
  (forall number, In number numbers -> number < Float64.overflow_threshold) ->
  count_loop numbers count
  = Return (count + Z.of_nat (List.length (filter counted numbers))).
Proof.
  revert count. induction numbers as [| number rest IH]; intros count Hall.
  - cbn. f_equal. lia.
  - cbn [count_loop filter]. unfold counted at 1.
    destruct (is_prime_returns number) as [b Hb]; [apply Hall; left; reflexivity |].
    rewrite Hb.
    assert (Hrest : forall x, In x rest -> x < Float64.overflow_threshold)
      by (intros x Hx; apply Hall; right; assumption).
    destruct b; rewrite IH by assumption; f_equal; cbn [List.length]; lia.
Qed.

Lemma count_body_returns (upper_bound : Z) :
  upper_bound <= Float64.overflow_threshold ->
  count_prime_numbers_body upper_bound
  = Return (Z.of_nat (List.length (filter counted (range 0 upper_bound)))).
Proof.
  intros H. unfold count_prime_numbers_body.
  rewrite count_loop_returns; [reflexivity |].
  intros number Hin. apply In_range in Hin. lia.
Qed.

Lemma range_from_app (start : Z) (n1 n2 : nat) :
  range_from start (n1 + n2)
  = range_from start n1 ++ range_from (start + Z.of_nat n1) n2.
Proof.
  revert start. induction n1 as [| n1 IH]; intros start.
  - cbn [Nat.add range_from app Z.of_nat]. rewrite Z.add_0_r. reflexivity.
  - cbn [Nat.add range_from app]. rewrite IH. do 3 f_equal. lia.
Qed.

Lemma range_split (start mid stop : Z) :
  start <= mid <= stop -> range start stop = range start mid ++ range mid stop.
Proof.
  intros [H1 H2]. unfold range.
  replace (Z.to_nat (stop - start))
    with (Z.to_nat (mid - start) + Z.to_nat (stop - mid))%nat by lia.
  rewrite range_from_app. do 2 f_equal. lia.
Qed.

Lemma count_body_overflow (upper_bound : Z) :
  Float64.overflow_threshold < upper_bound ->
  count_prime_numbers_body upper_bound = Raise OverflowError.
Proof.
  intros H. pose proof threshold_large as Hthr.
  assert (H0 : 0 < 2 ^ 106) by reflexivity.
  unfold count_prime_numbers_body.
  rewrite (range_split 0 Float64.overflow_threshold upper_bound) by lia.
  rewrite (range_split Float64.overflow_threshold
             (Float64.overflow_threshold + 1) upper_bound) by lia.
  rewrite (range_snoc Float64.overflow_threshold Float64.overflow_threshold) by lia.
  rewrite (range_empty Float64.overflow_threshold Float64.overflow_threshold) by lia.
  rewrite count_loop_app.
  rewrite count_loop_returns by (intros x Hx; rewrite In_range in Hx; lia).
  cbn [app count_loop].
  rewrite is_prime_overflow by lia. reflexivity.
Qed.

Lemma counted_Prime (n : Z) :
  n < 2 ^ 106 -> (counted n = true <-> Prime n).
Proof.
  intros H. unfold counted.
  destruct (is_prime_correct n H) as (b & -> & Hb).
  rewrite <- Hb. destruct b; split; auto; discriminate.
Qed.

Lemma filter_counted_primes_below (upper_bound : Z) :
  upper_bound <= 2 ^ 106 ->
  primes_below upper_bound
    (Z.of_nat (List.length (filter counted (range 0 upper_bound)))).
Proof.
  intros H. exists (filter counted (range 0 upper_bound)).
  split; [apply NoDup_filter, NoDup_range |].
  split; [| reflexivity].
  intros p. rewrite filter_In, In_range. split.
  - intros [Hr Hc]. split; [assumption |]. apply counted_Prime; [lia | assumption].
  - intros [Hr Hp]. split; [assumption |]. apply counted_Prime; [lia | assumption].
Qed.

Lemma count_body_step (upper_bound : Z) :
  upper_bound < Float64.overflow_threshold ->
  exists count,
    count_prime_numbers_body upper_bound = Return count
    /\ count_prime_numbers_body (upper_bound + 1)
       = Return (if counted upper_bound then count + 1 else count).
Proof.
  intros H.
  rewrite !count_body_returns by lia.
  eexists. split; [reflexivity |]. f_equal.
  destruct (Z_lt_ge_dec upper_bound 0) as [Hneg | Hpos].
  - rewrite !range_empty by lia.
    unfold counted. rewrite is_prime_below_2 by lia. reflexivity.
  - rewrite range_snoc by lia.
    rewrite filter_app, length_app. cbn [filter].
    destruct (counted upper_bound); cbn [List.length]; lia.
Qed.

Lemma count_body_monotone (a b : Z) :
  a <= b <= Float64.overflow_threshold ->
  exists count_a count_b,
    count_prime_numbers_body a = Return count_a
    /\ count_prime_numbers_body b = Return count_b
    /\ count_a <= count_b.
Proof.
  intros [Hab Hb].
  rewrite !count_body_returns by lia.
  do 2 eexists. split; [reflexivity |]. split; [reflexivity |].
  destruct (Z_lt_ge_dec a 0) as [Hneg | Hpos].
  - rewrite (range_empty 0 a) by lia. cbn [filter List.length]. lia.
  - rewrite (range_split 0 a b) by lia.
    rewrite filter_app, length_app. lia.
Qed.

End Counting.

(** * The decorators *)

Section DecoratorLemmas.

Context {heap : Type} {P : ParamSpec} {R : Type}.
Variable format_2f : spec_float -> string.
Variable func : callable heap P R.
Variables (args : p_args P) (kwargs : p_kwargs P).

Lemma with_logging_wrapper_named (name : string) (w : world heap) :
  __name__ func = Some name ->
  with_logging_wrapper func args kwargs w
  = let inv := direct_call func args kwargs (log_info ("Calling " ++ name) w) in
    match inv_outcome inv with
    | Return value =>
        (Return value, log_info ("Finished " ++ name) (inv_exit inv), [inv])
    | Raise e => (Raise e, inv_exit inv, [inv])
    end.
Proof.
  intros Hname.
  unfold with_logging_wrapper, bind, get_name, logging_info, call, ret, direct_call.
  rewrite Hname. cbn [inv_outcome inv_exit].
  destruct (__call__ func args kwargs (log_info ("Calling " ++ name) w))
    as [[value | e] w1]; reflexivity.
Qed.

Lemma with_logging_wrapper_nameless (w : world heap) :
  __name__ func = None ->
  with_logging_wrapper func args kwargs w
  = (Raise (AttributeError "__name__"), w, []).
Proof.
  intros Hname. unfold with_logging_wrapper, bind, get_name. rewrite Hname.
  reflexivity.
Qed.

Lemma benchmark_wrapper_run (w : world heap) :
  benchmark_wrapper format_2f func args kwargs w
  = let inv := direct_call func args kwargs (tick w) in
    match inv_outcome inv with
    | Return value =>
        match __name__ func with
        | Some name =>
            (Return value,
             log_info (timing_entry format_2f name w (inv_exit inv)) (tick (inv_exit inv)),
             [inv])
        | None => (Raise (AttributeError "__name__"), tick (inv_exit inv), [inv])
        end
    | Raise e => (Raise e, inv_exit inv, [inv])
    end.
Proof.
  unfold benchmark_wrapper, bind, perf_counter, get_name, logging_info, call, ret,
    direct_call, timing_entry.
  cbn [inv_outcome inv_exit].
  destruct (__call__ func args kwargs (tick w)) as [[value | e] w1];
    [| reflexivity].
  cbn [fst snd]. destruct (__name__ func); reflexivity.
Qed.

End DecoratorLemmas.

(** * Primes *)

Section Primes.

Lemma Prime_iff_prime (p : Z) : Prime p <-> prime p.
Proof.
  rewrite <- prime_alt. unfold Prime, Z.prime. split.
  - intros [H1 H]. split; [assumption |].
    intros n Hn Hdiv. destruct (H n ltac:(lia) Hdiv); lia.
  - intros [H1 H]. split; [assumption |].
    intros d Hd Hdiv.
    assert (d <= p) by (apply Z.divide_pos_le; [lia | assumption]).
    destruct (Z.eq_dec d 1) as [E1 | E1]; [auto |].
    destruct (Z.eq_dec d p) as [Ep | Ep]; [auto |].
    exfalso. apply (H d); [lia | assumption].
Qed.

Lemma prime_divisor_exists (n : Z) :
  2 <= n -> exists p, Prime p /\ (p | n).
Proof.
  intros Hn.
  assert (H0 : 0 <= n) by lia.
  revert Hn. pattern n. apply Z_lt_induction; [| assumption].
  clear n H0. intros n IH Hn.
  destruct (prime_dec n) as [Hp | Hnp].
  - exists n. split; [apply Prime_iff_prime; assumption | apply Z.divide_refl].
  - destruct (not_prime_divide n ltac:(lia) Hnp) as (d & Hd & Hdiv).
    destruct (IH d ltac:(lia) ltac:(lia)) as (p & Hp & Hpd).
    exists p. split; [assumption |].
    apply Z.divide_trans with d; assumption.
Qed.

Lemma divides_fact (k d : nat) :
  (1 <= d <= k)%nat -> (Z.of_nat d | Z.of_nat (fact k)).
Proof.
  induction k as [| k IH]; intros Hd; [lia |].
  change (fact (S k)) with (S k * fact k)%nat. rewrite Nat2Z.inj_mul.
  destruct (Nat.eq_dec d (S k)) as [-> | Hne].
  - apply Z.divide_factor_l.
  - apply Z.divide_mul_r. apply IH. lia.
Qed.

(** Euclid: there is a prime above every bound. *)
Lemma primes_unbounded (N : Z) : exists p, Prime p /\ N < p.
Proof.
  set (k := Z.to_nat N).
  pose proof (lt_O_fact k) as Hfact.
  destruct (prime_divisor_exists (Z.of_nat (fact k) + 1) ltac:(lia))
    as (p & Hp & Hdiv).
  exists p. split; [assumption |].
  destruct (Z_lt_ge_dec N p) as [Hlt | Hge]; [assumption | exfalso].
  destruct Hp as [Hp1 _].
  assert (Hpk : (Z.of_nat (Z.to_nat p) | Z.of_nat (fact k)))
    by (apply divides_fact; unfold k; lia).
  rewrite Z2Nat.id in Hpk by lia.
  assert (H1 : (p | 1)).
  { replace 1 with (Z.of_nat (fact k) + 1 - Z.of_nat (fact k)) by lia.
    apply Z.divide_sub_r; assumption. }
  apply Z.divide_1_r_nonneg in H1; lia.
Qed.

End Primes.


(** * The decorated [count_prime_numbers] *)

Section Decorated.

Context {heap : Type}.
Variable format_2f : spec_float -> string.

Lemma benchmark_name_count_prime_numbers :
  __name__ (benchmark format_2f (@count_prime_numbers_def heap))
  = Some "count_prime_numbers"%string.
Proof. reflexivity. Qed.

Lemma benchmark_count_prime_numbers_call (upper_bound : Z) (w : world heap) :
  __call__ (benchmark format_2f count_prime_numbers_def) upper_bound tt w
  = match count_prime_numbers_body upper_bound with
    | Return count =>
        (Return count,
         log_info (timing_entry format_2f "count_prime_numbers" w (tick w))
           (tick (tick w)))
    | Raise e => (Raise e, tick w)
    end.
Proof.
  unfold benchmark. cbn [__call__ functools_wraps]. unfold run.
  rewrite benchmark_wrapper_run.
  cbv zeta. unfold direct_call, count_prime_numbers_def.
  cbn [inv_outcome inv_exit __call__ __name__ fst snd].
  destruct (count_prime_numbers_body upper_bound); reflexivity.
Qed.

(** A call of the decorated function: the outcome is that of the
    undecorated body; the log and the clock record the two wrappers. *)
Lemma count_prime_numbers_call (upper_bound : Z) (w : world heap) :
  __call__ (count_prime_numbers format_2f) upper_bound tt w
  = let w0 := log_info "Calling count_prime_numbers" w in
    match count_prime_numbers_body upper_bound with
    | Return count =>
        (Return count,
         log_info "Finished count_prime_numbers"
           (log_info (timing_entry format_2f "count_prime_numbers" w0 (tick w0))
              (tick (tick w0))))
    | Raise e => (Raise e, tick w0)
    end.
Proof.
  unfold count_prime_numbers, with_logging.
  cbn [__call__ functools_wraps]. unfold run.
  rewrite (with_logging_wrapper_named _ _ _ "count_prime_numbers" w
             benchmark_name_count_prime_numbers).
  cbv zeta. unfold direct_call. cbn [inv_outcome inv_exit].
  rewrite benchmark_count_prime_numbers_call.
  destruct (count_prime_numbers_body upper_bound); reflexivity.
Qed.

Lemma count_prime_numbers_outcome (upper_bound : Z) (w : world heap) :
  fst (__call__ (count_prime_numbers format_2f) upper_bound tt w)
  = count_prime_numbers_body upper_bound.
Proof.
  rewrite count_prime_numbers_call. cbv zeta.
  destruct (count_prime_numbers_body upper_bound); reflexivity.
Qed.

End Decorated.

(** * The claims *)

Section PrimeCounting.

(** A cardinal is determined by the property that is counted. *)
Lemma cardinal_unique (P : Z -> Prop) (c1 c2 : Z) :
  cardinal P c1 -> cardinal P c2 -> c1 = c2.
Proof.
  intros (l1 & Hnd1 & Hin1 & ->) (l2 & Hnd2 & Hin2 & ->).
  f_equal. apply Permutation.Permutation_length.
  apply Permutation.NoDup_Permutation; [assumption | assumption |].
  intros p. rewrite Hin1, Hin2. reflexivity.
Qed.

Lemma prime_pi_of_primes_below (x c : Z) : primes_below (x + 1) c -> prime_pi x c.
Proof.
  intros (l & Hnd & Hin & Hc). exists l. split; [assumption |].
  split; [| assumption].
  intros p. rewrite Hin. unfold Prime. split.
  - intros [Hr Hp]. split; [assumption | lia].
  - intros [Hp Hle]. split; [lia | assumption].
Qed.

Lemma primes_below_nonpositive (bound c : Z) :
  bound <= 0 -> primes_below bound c -> c = 0.
Proof.
  intros Hb (l & _ & Hin & ->).
  destruct l as [| p l]; [reflexivity | exfalso].
  destruct (proj1 (Hin p) (or_introl eq_refl)) as [Hr _]. lia.
Qed.

End PrimeCounting.

(** C1, amended.  For every bound up to [2 ^ 106], a call of the
    decorated [count_prime_numbers] returns the number of primes in
    [[0, bound)]; for a bound that is negative or zero this number is 0. *)
Theorem count_prime_numbers_counts_primes
    (heap : Type) (format_2f : spec_float -> string)
    (bound : Z) (w : world heap) :
  bound <= 2 ^ 106 ->
  exists count,
    fst (__call__ (count_prime_numbers format_2f) bound tt w) = Return count
    /\ primes_below bound count
    /\ (bound <= 0 -> count = 0).
Proof.
  intros Hb. pose proof threshold_large as Hthr.
  rewrite count_prime_numbers_outcome, count_body_returns by lia.
  eexists. split; [reflexivity |].
  pose proof (filter_counted_primes_below bound Hb) as Hp.
  split; [exact Hp |].
  intros H0. exact (primes_below_nonpositive bound _ H0 Hp).
Qed.

Lemma count_prime_numbers_counts_primes_witness :
  (exists count,
      fst (__call__ (count_prime_numbers constant_text) 10 tt quiet_world)
      = Return count
      /\ primes_below 10 count)
  /\ (exists count,
         fst (__call__ (count_prime_numbers constant_text) (-3) tt quiet_world)
         = Return count
         /\ count = 0).
Proof.
  split.
  - destruct (count_prime_numbers_counts_primes unit constant_text 10 quiet_world)
      as (count & Hcall & Hcount & _).
    + apply Z.leb_le. reflexivity.
    + exists count. split; assumption.
  - destruct (count_prime_numbers_counts_primes unit constant_text (-3) quiet_world)
      as (count & Hcall & _ & Hzero).
    + apply Z.leb_le. reflexivity.
    + exists count. split; [assumption |]. apply Hzero. lia.
Defined.

(** C1, counterexample.  With the bound [2 ^ 1024] the call does not return
    a count: [is_prime] is reached with an int that [sqrt] cannot convert
    to a float, and the [OverflowError] leaves both wrappers. *)
Lemma count_prime_numbers_huge_bound_raises :
  fst (__call__ (count_prime_numbers constant_text) (2 ^ 1024) tt quiet_world)
  = Raise OverflowError.
Proof.
  rewrite count_prime_numbers_outcome.
  apply count_body_overflow. reflexivity.
Qed.

(** C2, amended.  For every integer [n] with [2 <= n < 2 ^ 106],
    [is_prime n] returns [True] if and only if [n] has no divisor [d] with
    [2 <= d <= sqrt(n)].  The value returned is the result of trial
    division by every integer from 2 up to and including
    [int(sqrt(n))], which is the integer square root of [n] when
    [n < 2 ^ 52], and the integer square root or one more otherwise. *)
Theorem is_prime_iff_no_divisor (n : Z) :
  2 <= n < 2 ^ 106 ->
  exists root b,
    int_sqrt n = Return root
    /\ is_prime n = Return b
    /\ b = is_prime_loop n (range 2 (root + 1))
    /\ (b = true <-> forall d, 2 <= d <= root -> n mod d <> 0)
    /\ (b = true <-> no_divisor_up_to_sqrt n)
    /\ Z.sqrt n <= root <= Z.sqrt n + 1
    /\ (n < 2 ^ 52 -> root = Z.sqrt n).
Proof.
  intros Hn.
  destruct (int_sqrt_root n Hn) as (root & Hret & Hb & Hlt & Hexact).
  exists root, (is_prime_loop n (range 2 (root + 1))).
  split; [assumption |]. split.
  { unfold is_prime. destruct (Z.ltb_spec n 2) as [H | H]; [lia |].
    rewrite Hret. reflexivity. }
  split; [reflexivity |]. split.
  { rewrite is_prime_loop_true. split.
    - intros H d Hd. apply H. apply In_range. lia.
    - intros H d Hd. apply H. apply In_range in Hd. lia. }
  split.
  { rewrite trial_division_Prime by lia. apply Prime_no_divisor. lia. }
  split; assumption.
Qed.

Lemma is_prime_iff_no_divisor_witness :
  is_prime 97 = Return true /\ no_divisor_up_to_sqrt 97
  /\ int_sqrt 97 = Return (Z.sqrt 97).
Proof.
  destruct (is_prime_iff_no_divisor 97)
    as (root & b & Hroot & Hret & Hloop & _ & Hdiv & _ & Hexact).
  - split; [apply Z.leb_le | apply Z.ltb_lt]; reflexivity.
  - assert (Eroot : root = Z.sqrt 97) by (apply Hexact; apply Z.ltb_lt; reflexivity).
    assert (Hb : b = true) by (rewrite Hloop, Eroot; vm_compute; reflexivity).
    split; [rewrite Hret, Hb; reflexivity |].
    split; [apply Hdiv; exact Hb | rewrite Hroot, Eroot; reflexivity].
Defined.

(** C2, counterexample.  [is_prime (2 ^ 1024)] raises [OverflowError]; and
    since there are primes beyond the overflow threshold, for which
    [is_prime] raises as well, "returns [True] iff no divisor up to the
    square root" does not hold for every [n >= 2]. *)
Lemma is_prime_iff_no_divisor_fails :
  is_prime (2 ^ 1024) = Raise OverflowError
  /\ ~ (forall n, 2 <= n ->
          (is_prime n = Return true <-> no_divisor_up_to_sqrt n)).
Proof.
  split.
  - apply is_prime_overflow. apply Z.leb_le. reflexivity.
  - intros H.
    destruct (primes_unbounded Float64.overflow_threshold) as (p & Hp & Hlt).
    assert (H2 : 2 <= p) by (destruct Hp; lia).
    assert (Htrue : is_prime p = Return true).
    { apply (H p H2). apply Prime_no_divisor; assumption. }
    rewrite is_prime_overflow in Htrue by lia. discriminate Htrue.
Qed.

(** C3.  For every integer [n < 2] (negative, 0 or 1),
    [is_prime n] returns [False]. *)
Theorem is_prime_below_two (n : Z) : n < 2 -> is_prime n = Return false.
Proof.
  intros H. unfold is_prime.
  destruct (Z.ltb_spec n 2) as [_ | Hge]; [reflexivity | lia].
Qed.

Lemma is_prime_below_two_witness :
  is_prime (-7) = Return false /\ is_prime 0 = Return false
  /\ is_prime 1 = Return false.
Proof.
  split; [apply (is_prime_below_two (-7)); lia |].
  split; [apply (is_prime_below_two 0); lia | apply (is_prime_below_two 1); lia].
Defined.

(** C4.  The decorated [count_prime_numbers] returns 0 for the
    bounds 0 and 1, 4 for the bound 10, and for the bound 50000 the value of
    the prime-counting function at 49999. *)
Theorem count_prime_numbers_values
    (heap : Type) (format_2f : spec_float -> string) (w : world heap) :
  fst (__call__ (count_prime_numbers format_2f) 0 tt w) = Return 0
  /\ fst (__call__ (count_prime_numbers format_2f) 1 tt w) = Return 0
  /\ fst (__call__ (count_prime_numbers format_2f) 10 tt w) = Return 4
  /\ exists count,
       fst (__call__ (count_prime_numbers format_2f) 50000 tt w) = Return count
       /\ prime_pi 49999 count.
Proof.
  rewrite !count_prime_numbers_outcome.
  split; [reflexivity |]. split; [reflexivity |]. split; [vm_compute; reflexivity |].
  pose proof threshold_large as Hthr.
  assert (H5 : 50000 <= 2 ^ 106) by (apply Z.leb_le; reflexivity).
  rewrite count_body_returns by lia.
  eexists. split; [reflexivity |].
  apply prime_pi_of_primes_below.
  exact (filter_counted_primes_below 50000 H5).
Qed.

(** C9, amended.  [is_prime n] returns a boolean, without raising,
    exactly for the integers [n] below [2 ^ 1024 - 2 ^ 970]; below 2, so
    for every negative integer, the guard answers [False] before [sqrt] is
    reached; and for every integer from [2 ^ 1024 - 2 ^ 970] on,
    [is_prime n] raises [OverflowError]. *)
Theorem is_prime_returns_iff (n : Z) :
  ((exists b, is_prime n = Return b) <-> n < 2 ^ 1024 - 2 ^ 970)
  /\ (is_prime n = Raise OverflowError <-> 2 ^ 1024 - 2 ^ 970 <= n)
  /\ (n < 2 -> is_prime n = Return false).
Proof.
  change (2 ^ 1024 - 2 ^ 970) with Float64.overflow_threshold.
  split; [| split].
  - split.
    + intros [b Hb].
      destruct (Z_lt_ge_dec n Float64.overflow_threshold) as [H | H]; [assumption |].
      rewrite is_prime_overflow in Hb by lia. discriminate Hb.
    + apply is_prime_returns.
  - split.
    + intros Hraise.
      destruct (Z_lt_ge_dec n Float64.overflow_threshold) as [H | H]; [| lia].
      destruct (is_prime_returns n H) as [b Hb].
      rewrite Hb in Hraise. discriminate Hraise.
    + apply is_prime_overflow.
  - apply is_prime_below_2.
Qed.

Lemma is_prime_returns_iff_witness :
  is_prime (-5) = Return false
  /\ is_prime (2 ^ 1024 - 2 ^ 970) = Raise OverflowError
  /\ exists b, is_prime (2 ^ 1024 - 2 ^ 970 - 1) = Return b.
Proof.
  split; [| split].
  - apply (proj2 (proj2 (is_prime_returns_iff (-5)))). lia.
  - apply (proj2 (proj1 (proj2 (is_prime_returns_iff (2 ^ 1024 - 2 ^ 970))))).
    apply Z.le_refl.
  - apply (proj2 (proj1 (is_prime_returns_iff (2 ^ 1024 - 2 ^ 970 - 1)))).
    apply Z.ltb_lt. reflexivity.
Defined.

(** C9, counterexample.  [is_prime (2 ^ 1024)] raises. *)
Lemma is_prime_raises_at_2_pow_1024 :
  is_prime (2 ^ 1024) = Raise OverflowError
  /\ ~ (exists b, is_prime (2 ^ 1024) = Return b).
Proof.
  assert (H : is_prime (2 ^ 1024) = Raise OverflowError)
    by (apply is_prime_overflow; apply Z.leb_le; reflexivity).
  split; [exact H |].
  intros [b Hb]. rewrite H in Hb. discriminate Hb.
Qed.

(** The guard of [is_prime] matters: [sqrt] of a negative int is a domain
    error. *)
Example math_sqrt_negative :
  math_sqrt (-1) = Raise (ValueError "math domain error")
  /\ math_sqrt (-4) = Raise (ValueError "math domain error").
Proof. split; reflexivity. Qed.

(** C10, amended.  For [a <= b <= 2 ^ 1024 - 2 ^ 970] the decorated
    [count_prime_numbers] returns counts with
    [count_prime_numbers(a) <= count_prime_numbers(b)]; and for
    [b < 2 ^ 1024 - 2 ^ 970], [count_prime_numbers(b + 1)] is
    [count_prime_numbers(b)] plus 1 if [is_prime(b)] and plus 0 otherwise. *)
Theorem count_prime_numbers_monotone
    (heap : Type) (format_2f : spec_float -> string)
    (a b : Z) (w : world heap) :
  (a <= b <= 2 ^ 1024 - 2 ^ 970 ->
   exists count_a count_b,
     fst (__call__ (count_prime_numbers format_2f) a tt w) = Return count_a
     /\ fst (__call__ (count_prime_numbers format_2f) b tt w) = Return count_b
     /\ count_a <= count_b)
  /\ (b < 2 ^ 1024 - 2 ^ 970 ->
      exists count_b prime_b,
        fst (__call__ (count_prime_numbers format_2f) b tt w) = Return count_b
        /\ is_prime b = Return prime_b
        /\ fst (__call__ (count_prime_numbers format_2f) (b + 1) tt w)
           = Return (count_b + if prime_b then 1 else 0)).
Proof.
  change (2 ^ 1024 - 2 ^ 970) with Float64.overflow_threshold.
  rewrite !count_prime_numbers_outcome. split.
  - apply count_body_monotone.
  - intros Hb.
    destruct (count_body_step b Hb) as (count_b & Hcount & Hstep).
    destruct (is_prime_returns b Hb) as [prime_b Hprime].
    exists count_b, prime_b.
    split; [assumption |]. split; [assumption |].
    rewrite Hstep. unfold counted. rewrite Hprime.
    destruct prime_b; f_equal; lia.
Qed.

Lemma count_prime_numbers_monotone_witness :
  (exists count_a count_b,
      fst (__call__ (count_prime_numbers constant_text) 3 tt quiet_world)
      = Return count_a
      /\ fst (__call__ (count_prime_numbers constant_text) 7 tt quiet_world)
         = Return count_b
      /\ count_a <= count_b)
  /\ (exists count_b prime_b,
         fst (__call__ (count_prime_numbers constant_text) 7 tt quiet_world)
         = Return count_b
         /\ is_prime 7 = Return prime_b
         /\ fst (__call__ (count_prime_numbers constant_text) (7 + 1) tt quiet_world)
            = Return (count_b + if prime_b then 1 else 0)).
Proof.
  destruct (count_prime_numbers_monotone unit constant_text 3 7 quiet_world)
    as [Hmono Hstep].
  split.
  - apply Hmono. split; [lia | apply Z.leb_le; reflexivity].
  - apply Hstep. apply Z.ltb_lt. reflexivity.
Defined.

(** C10, counterexample.  [0 <= 2 ^ 1024], yet only the call with bound 0
    returns a count; and at [b = 2 ^ 1024 - 2 ^ 970] the call with bound
    [b] returns while [is_prime b] and the call with bound [b + 1] raise. *)
Lemma count_prime_numbers_not_comparable :
  fst (__call__ (count_prime_numbers constant_text) 0 tt quiet_world) = Return 0
  /\ fst (__call__ (count_prime_numbers constant_text) (2 ^ 1024) tt quiet_world)
     = Raise OverflowError
  /\ (exists count,
         fst (__call__ (count_prime_numbers constant_text)
                (2 ^ 1024 - 2 ^ 970) tt quiet_world) = Return count)
  /\ is_prime (2 ^ 1024 - 2 ^ 970) = Raise OverflowError
  /\ fst (__call__ (count_prime_numbers constant_text)
            (2 ^ 1024 - 2 ^ 970 + 1) tt quiet_world) = Raise OverflowError.
Proof.
  change (2 ^ 1024 - 2 ^ 970) with Float64.overflow_threshold.
  rewrite !count_prime_numbers_outcome.
  split; [reflexivity |].
  split; [apply count_body_overflow; reflexivity |].
  split; [eexists; apply count_body_returns; lia |].
  split; [apply is_prime_overflow; lia |].
  apply count_body_overflow. lia.
Qed.

Section WrapperClaims.

Context {heap : Type} {P : ParamSpec} {R : Type}.
Variable format_2f : spec_float -> string.
Variable func : callable heap P R.

Lemma with_logging_passes_through (name : string) :
  __name__ func = Some name ->
  passes_through (with_logging_wrapper func) func.
Proof.
  intros Hname args kwargs w.
  exists (direct_call func args kwargs (log_info ("Calling " ++ name) w)).
  unfold calls_of, run.
  rewrite (with_logging_wrapper_named func args kwargs name w Hname).
  cbv zeta.
  set (inv := direct_call func args kwargs (log_info ("Calling " ++ name) w)).
  assert (Hcall : __call__ func args kwargs (inv_entry inv)
                  = (inv_outcome inv, inv_exit inv))
    by (unfold inv, direct_call; cbn [inv_entry inv_outcome inv_exit];
        apply surjective_pairing).
  destruct (inv_outcome inv) eqn:Hout; repeat split; try reflexivity;
    assumption.
Qed.

Lemma benchmark_passes_through (name : string) :
  __name__ func = Some name ->
  passes_through (benchmark_wrapper format_2f func) func.
Proof.
  intros Hname args kwargs w.
  exists (direct_call func args kwargs (tick w)).
  unfold calls_of, run.
  rewrite benchmark_wrapper_run, Hname.
  cbv zeta.
  set (inv := direct_call func args kwargs (tick w)).
  assert (Hcall : __call__ func args kwargs (inv_entry inv)
                  = (inv_outcome inv, inv_exit inv))
    by (unfold inv, direct_call; cbn [inv_entry inv_outcome inv_exit];
        apply surjective_pairing).
  destruct (inv_outcome inv) eqn:Hout; repeat split; try reflexivity;
    assumption.
Qed.

End WrapperClaims.

(** C5, amended.  For every callable [func] that has a [__name__], and
    for all arguments, a call of [with_logging(func)] makes exactly one
    direct call of [func], with exactly those positional and keyword
    arguments, and ends the way that call ended: it returns the value
    [func] returned (or raises what [func] raised).  [benchmark(func)] does
    the same. *)
Theorem wrappers_pass_through
    (heap : Type) (P : ParamSpec) (R : Type) (format_2f : spec_float -> string)
    (func : callable heap P R) (name : string) :
  __name__ func = Some name ->
  passes_through (with_logging_wrapper func) func
  /\ passes_through (benchmark_wrapper format_2f func) func
  /\ (forall args kwargs w,
         fst (__call__ (with_logging func) args kwargs w)
         = fst (__call__ func args kwargs (log_info ("Calling " ++ name) w)))
  /\ (forall args kwargs w,
         fst (__call__ (benchmark format_2f func) args kwargs w)
         = fst (__call__ func args kwargs (tick w))).
Proof.
  intros Hname.
  split; [exact (with_logging_passes_through func name Hname) |].
  split; [exact (benchmark_passes_through format_2f func name Hname) |].
  split; intros args kwargs w.
  - unfold with_logging. cbn [__call__ functools_wraps]. unfold run.
    rewrite (with_logging_wrapper_named func args kwargs name w Hname).
    cbv zeta. unfold direct_call. cbn [inv_outcome inv_exit].
    destruct (fst (__call__ func args kwargs (log_info ("Calling " ++ name) w)));
      reflexivity.
  - unfold benchmark. cbn [__call__ functools_wraps]. unfold run.
    rewrite benchmark_wrapper_run, Hname.
    cbv zeta. unfold direct_call. cbn [inv_outcome inv_exit].
    destruct (fst (__call__ func args kwargs (tick w))); reflexivity.
Qed.

Lemma wrappers_pass_through_witness :
  fst (__call__ (with_logging successor) 41 tt quiet_world) = Return 42
  /\ fst (__call__ (benchmark constant_text successor) 41 tt quiet_world)
     = Return 42
  /\ passes_through (with_logging_wrapper successor) successor.
Proof.
  destruct (wrappers_pass_through unit one_int Z constant_text successor
              "successor" eq_refl) as (Hlog & _ & Hcall_log & Hcall_bench).
  split; [rewrite Hcall_log; reflexivity |].
  split; [rewrite Hcall_bench; reflexivity | exact Hlog].
Defined.

(** C5, counterexample.  A callable without [__name__] is not passed
    through: [with_logging] raises [AttributeError] before calling it, and
    [benchmark] calls it but raises [AttributeError] instead of returning
    its result. *)
Lemma nameless_not_passed_through :
  ~ passes_through (with_logging_wrapper nameless_successor) nameless_successor
  /\ ~ passes_through (benchmark_wrapper constant_text nameless_successor)
         nameless_successor
  /\ calls_of (with_logging_wrapper nameless_successor 41 tt) quiet_world = []
  /\ fst (__call__ (with_logging nameless_successor) 41 tt quiet_world)
     = Raise (AttributeError "__name__")
  /\ fst (__call__ nameless_successor 41 tt quiet_world) = Return 42
  /\ fst (__call__ (benchmark constant_text nameless_successor) 41 tt quiet_world)
     = Raise (AttributeError "__name__").
Proof.
  split; [| split; [| repeat split]].
  - intros H. destruct (H 41 tt quiet_world) as (inv & Hcalls & _).
    discriminate Hcalls.
  - intros H.
    destruct (H 41 tt quiet_world) as (inv & Hcalls & _ & _ & _ & Hout).
    injection Hcalls as <-. discriminate Hout.
Qed.

Section ExceptionClaims.

Context {heap : Type} {P : ParamSpec} {R : Type}.
Variable format_2f : spec_float -> string.
Variable func : callable heap P R.
Variables (args : p_args P) (kwargs : p_kwargs P) (w : world heap).

Lemma with_logging_calls (inv : @invocation heap P R) :
  In inv (calls_of (with_logging_wrapper func args kwargs) w) ->
  exists name,
    __name__ func = Some name
    /\ inv = direct_call func args kwargs (log_info ("Calling " ++ name) w).
Proof.
  unfold calls_of. destruct (__name__ func) as [name |] eqn:Hname.
  - rewrite (with_logging_wrapper_named func args kwargs name w Hname).
    cbv zeta. intros Hin. exists name. split; [reflexivity |].
    destruct (inv_outcome (direct_call func args kwargs
                (log_info ("Calling " ++ name) w)));
      cbn [snd In] in Hin; destruct Hin as [<- | []]; reflexivity.
  - rewrite (with_logging_wrapper_nameless func args kwargs w Hname).
    intros [].
Qed.

Lemma benchmark_calls (inv : @invocation heap P R) :
  In inv (calls_of (benchmark_wrapper format_2f func args kwargs) w) ->
  inv = direct_call func args kwargs (tick w).
Proof.
  unfold calls_of. rewrite benchmark_wrapper_run. cbv zeta. intros Hin.
  destruct (inv_outcome (direct_call func args kwargs (tick w)));
    [destruct (__name__ func) |];
    cbn [snd In] in Hin; destruct Hin as [<- | []]; reflexivity.
Qed.

Lemma direct_call_is_call (w0 : world heap) :
  __call__ func (inv_args (direct_call func args kwargs w0))
    (inv_kwargs (direct_call func args kwargs w0))
    (inv_entry (direct_call func args kwargs w0))
  = (inv_outcome (direct_call func args kwargs w0),
     inv_exit (direct_call func args kwargs w0)).
Proof. unfold direct_call. cbn. apply surjective_pairing. Qed.

End ExceptionClaims.

(** C6.  Whenever the direct call of [func] made by a wrapper raises an
    exception [e], the call of [with_logging(func)], and likewise of
    [benchmark(func)], raises that same [e] and leaves the world exactly
    as [func] left it: neither the "Finished" entry nor the timing entry
    is added to the log.  That direct call is the only one; [with_logging]
    made it right after logging the "Calling" entry, and [benchmark] right
    after its first clock reading, so that nothing else was logged before
    it either. *)
Theorem wrappers_propagate_exceptions
    (heap : Type) (P : ParamSpec) (R : Type) (format_2f : spec_float -> string)
    (func : callable heap P R) (args : p_args P) (kwargs : p_kwargs P)
    (w : world heap) (inv : @invocation heap P R) (e : exn) :
  (In inv (calls_of (with_logging_wrapper func args kwargs) w) ->
   inv_outcome inv = Raise e ->
   __call__ func (inv_args inv) (inv_kwargs inv) (inv_entry inv)
   = (Raise e, inv_exit inv)
   /\ __call__ (with_logging func) args kwargs w = (Raise e, inv_exit inv)
   /\ logged (snd (__call__ (with_logging func) args kwargs w))
      = logged (inv_exit inv)
   /\ calls_of (with_logging_wrapper func args kwargs) w = [inv]
   /\ exists name,
        __name__ func = Some name
        /\ inv_entry inv = log_info ("Calling " ++ name) w
        /\ logged (inv_entry inv) = logged w ++ [("Calling " ++ name)%string])
  /\ (In inv (calls_of (benchmark_wrapper format_2f func args kwargs) w) ->
      inv_outcome inv = Raise e ->
      __call__ func (inv_args inv) (inv_kwargs inv) (inv_entry inv)
      = (Raise e, inv_exit inv)
      /\ __call__ (benchmark format_2f func) args kwargs w = (Raise e, inv_exit inv)
      /\ logged (snd (__call__ (benchmark format_2f func) args kwargs w))
         = logged (inv_exit inv)
      /\ calls_of (benchmark_wrapper format_2f func args kwargs) w = [inv]
      /\ inv_entry inv = tick w
      /\ logged (inv_entry inv) = logged w).
Proof.
  split.
  - intros Hin Hraise.
    destruct (with_logging_calls func args kwargs w inv Hin) as (name & Hname & Hinv).
    assert (Hrun : with_logging_wrapper func args kwargs w
                   = (Raise e, inv_exit inv, [inv])).
    { rewrite (with_logging_wrapper_named func args kwargs name w Hname).
      cbv zeta. rewrite <- Hinv, Hraise. reflexivity. }
    assert (Hcall : __call__ (with_logging func) args kwargs w
                    = (Raise e, inv_exit inv)).
    { unfold with_logging. cbn [__call__ functools_wraps]. unfold run.
      rewrite Hrun. reflexivity. }
    split; [rewrite <- Hraise, Hinv; apply direct_call_is_call |].
    split; [exact Hcall |]. split; [rewrite Hcall; reflexivity |].
    split; [unfold calls_of; rewrite Hrun; reflexivity |].
    exists name. split; [exact Hname |].
    split; rewrite Hinv; reflexivity.
  - intros Hin Hraise.
    pose proof (benchmark_calls format_2f func args kwargs w inv Hin) as Hinv.
    assert (Hrun : benchmark_wrapper format_2f func args kwargs w
                   = (Raise e, inv_exit inv, [inv])).
    { rewrite benchmark_wrapper_run.
      cbv zeta. rewrite <- Hinv, Hraise. reflexivity. }
    assert (Hcall : __call__ (benchmark format_2f func) args kwargs w
                    = (Raise e, inv_exit inv)).
    { unfold benchmark. cbn [__call__ functools_wraps]. unfold run.
      rewrite Hrun. reflexivity. }
    split; [rewrite <- Hraise, Hinv; apply direct_call_is_call |].
    split; [exact Hcall |]. split; [rewrite Hcall; reflexivity |].
    split; [unfold calls_of; rewrite Hrun; reflexivity |].
    split; rewrite Hinv; reflexivity.
Qed.

Lemma wrappers_propagate_exceptions_witness :
  __call__ (with_logging failing) 3 tt quiet_world
  = (Raise (PyExc "RuntimeError" "boom"), log_info "Calling failing" quiet_world)
  /\ logged (snd (__call__ (with_logging failing) 3 tt quiet_world))
     = ["Calling failing"%string]
  /\ __call__ (benchmark constant_text failing) 3 tt quiet_world
     = (Raise (PyExc "RuntimeError" "boom"), tick quiet_world)
  /\ logged (snd (__call__ (benchmark constant_text failing) 3 tt quiet_world))
     = [].
Proof.
  destruct (proj1 (wrappers_propagate_exceptions unit one_int Z constant_text
                     failing 3 tt quiet_world
                     (direct_call failing 3 tt (log_info "Calling failing" quiet_world))
                     (PyExc "RuntimeError" "boom")))
    as (_ & Hlog & Hlogged & _); [simpl; auto | reflexivity |].
  destruct (proj2 (wrappers_propagate_exceptions unit one_int Z constant_text
                     failing 3 tt quiet_world
                     (direct_call failing 3 tt (tick quiet_world))
                     (PyExc "RuntimeError" "boom")))
    as (_ & Hbench & Hbenched & _); [simpl; auto | reflexivity |].
  split; [exact Hlog |]. split; [exact Hlogged |].
  split; [exact Hbench | exact Hbenched].
Defined.

(** C7.  On every call of the decorated [count_prime_numbers]
    that returns normally, exactly three entries are added to the log, in
    this order: the "Calling" entry, the "took X seconds" timing entry, the
    "Finished" entry; the clock was read twice in between. *)
Theorem composed_log_order
    (heap : Type) (format_2f : spec_float -> string)
    (upper_bound : Z) (w : world heap) (count : Z) :
  fst (__call__ (count_prime_numbers format_2f) upper_bound tt w) = Return count ->
  logged (snd (__call__ (count_prime_numbers format_2f) upper_bound tt w))
  = logged w
    ++ [ "Calling count_prime_numbers";
         "Execution of count_prime_numbers took "
         ++ format_2f (Float64.sub (clock w (S (clock_reads w)))
                                   (clock w (clock_reads w)))
         ++ " seconds.";
         "Finished count_prime_numbers" ]%string
  /\ clock_reads (snd (__call__ (count_prime_numbers format_2f) upper_bound tt w))
     = S (S (clock_reads w)).
Proof.
  rewrite count_prime_numbers_call. cbv zeta.
  destruct (count_prime_numbers_body upper_bound) as [value | e];
    [| discriminate].
  intros _. cbn [snd]. unfold log_info, tick, timing_entry.
  cbn [logged clock clock_reads].
  rewrite <- !app_assoc. split; reflexivity.
Qed.

Lemma composed_log_order_witness :
  logged (snd (__call__ (count_prime_numbers constant_text) 10 tt quiet_world))
  = [ "Calling count_prime_numbers";
      "Execution of count_prime_numbers took 0.00 seconds.";
      "Finished count_prime_numbers" ]%string.
Proof.
  apply (composed_log_order unit constant_text 10 quiet_world 4).
  vm_compute. reflexivity.
Defined.

(** C8, amended.  For every callable [func] that has a [__name__], the
    callables returned by [with_logging(func)] and by [benchmark(func)]
    (and by their composition) report that same name, and the log entries
    they write carry it. *)
Theorem wrappers_keep_name
    (heap : Type) (P : ParamSpec) (R : Type) (format_2f : spec_float -> string)
    (func : callable heap P R) (name : string) :
  __name__ func = Some name ->
  __name__ (with_logging func) = Some name
  /\ __name__ (benchmark format_2f func) = Some name
  /\ __name__ (with_logging (benchmark format_2f func)) = Some name
  /\ (forall args kwargs w,
        exists inv,
          calls_of (with_logging_wrapper func args kwargs) w = [inv]
          /\ logged (inv_entry inv) = logged w ++ [("Calling " ++ name)%string]
          /\ forall value,
               inv_outcome inv = Return value ->
               logged (snd (__call__ (with_logging func) args kwargs w))
               = logged (inv_exit inv) ++ [("Finished " ++ name)%string])
  /\ (forall args kwargs w,
        exists inv,
          calls_of (benchmark_wrapper format_2f func args kwargs) w = [inv]
          /\ forall value,
               inv_outcome inv = Return value ->
               exists seconds,
                 logged (snd (__call__ (benchmark format_2f func) args kwargs w))
                 = logged (inv_exit inv)
                   ++ [("Execution of " ++ name ++ " took " ++ seconds
                        ++ " seconds.")%string]).
Proof.
  intros Hname.
  assert (Hlog : __name__ (with_logging func) = Some name)
    by (unfold with_logging, functools_wraps; cbn [__name__]; rewrite Hname;
        reflexivity).
  assert (Hbench : __name__ (benchmark format_2f func) = Some name)
    by (unfold benchmark, functools_wraps; cbn [__name__]; rewrite Hname;
        reflexivity).
  split; [exact Hlog |]. split; [exact Hbench |].
  split.
  { unfold with_logging, functools_wraps. cbn [__name__].
    fold (benchmark format_2f func). rewrite Hbench. reflexivity. }
  split; intros args kwargs w.
  - exists (direct_call func args kwargs (log_info ("Calling " ++ name) w)).
    unfold with_logging, calls_of. cbn [__call__ functools_wraps]. unfold run.
    rewrite (with_logging_wrapper_named func args kwargs name w Hname).
    cbv zeta.
    split; [destruct (inv_outcome _); reflexivity |].
    split; [reflexivity |].
    intros value Hvalue. rewrite Hvalue. reflexivity.
  - exists (direct_call func args kwargs (tick w)).
    unfold benchmark, calls_of. cbn [__call__ functools_wraps]. unfold run.
    rewrite benchmark_wrapper_run, Hname.
    cbv zeta.
    split; [destruct (inv_outcome _); reflexivity |].
    intros value Hvalue. rewrite Hvalue. eexists. reflexivity.
Qed.

Lemma wrappers_keep_name_witness :
  __name__ (with_logging successor) = Some "successor"%string
  /\ __name__ (benchmark constant_text successor) = Some "successor"%string
  /\ logged (snd (__call__ (with_logging successor) 41 tt quiet_world))
     = ["Calling successor"; "Finished successor"]%string
  /\ exists seconds,
       logged (snd (__call__ (benchmark constant_text successor) 41 tt quiet_world))
       = [("Execution of successor took " ++ seconds ++ " seconds.")%string].
Proof.
  destruct (wrappers_keep_name unit one_int Z constant_text successor
              "successor" eq_refl)
    as (Hlog & Hbench & _ & Hentries & Htiming).
  split; [exact Hlog |]. split; [exact Hbench |]. split.
  - destruct (Hentries 41 tt quiet_world) as (inv & Hcalls & Hentry & Hfinished).
    injection Hcalls as <-.
    rewrite (Hfinished 42 eq_refl). reflexivity.
  - destruct (Htiming 41 tt quiet_world) as (inv & Hcalls & Htook).
    injection Hcalls as <-.
    destruct (Htook 42 eq_refl) as (seconds & Hseconds).
    exists seconds. rewrite Hseconds. reflexivity.
Defined.

(** C8, counterexample.  For a callable without [__name__] both wrappers
    report the generic name [wrapper]. *)
Lemma nameless_gets_wrapper_name :
  __name__ nameless_successor = None
  /\ __name__ (with_logging nameless_successor) = Some "wrapper"%string
  /\ __name__ (benchmark constant_text nameless_successor) = Some "wrapper"%string
  /\ __name__ (with_logging nameless_successor) <> __name__ nameless_successor.
Proof.
  repeat split. discriminate.
Qed.

(** * Further properties: [int(sqrt(n))] on the whole range of floats *)

Section LargeRoots.

Lemma digits_ge (n b : Z) : 0 < b -> 2 ^ (b - 1) <= n -> b <= Zdigits2 n.
Proof.
  intros Hb Hn.
  assert (Hpos : 0 < n) by (assert (0 < 2 ^ (b - 1)) by (apply Z.pow_pos_nonneg; lia); lia).
  destruct (Zdigits2_bounds n Hpos) as [[_ Hhi] Hd].
  destruct (Z_le_gt_dec b (Zdigits2 n)) as [H | H]; [assumption | exfalso].
  assert (2 ^ Zdigits2 n <= 2 ^ (b - 1)) by (apply Z.pow_le_mono_r; lia). lia.
Qed.

(** The exponent of [float(n)] follows the number of bits of [n]. *)
Lemma binary_normalize_exponent (n : Z) :
  2 ^ 53 <= n < Float64.overflow_threshold ->
  exists m e,
    binary_normalize Float64.prec Float64.emax n 0 false = S754_finite false m e
    /\ 2 ^ 52 <= Zpos m < 2 ^ 53
    /\ Zdigits2 n - 53 <= e <= Zdigits2 n - 52
    /\ e <= 971.
Proof.
  intros [Hlo Hlt].
  assert (Hthr : Float64.overflow_threshold < 2 ^ 1024) by reflexivity.
  assert (Hpos : 0 < n) by (assert (0 < 2 ^ 53) by reflexivity; lia).
  destruct (binary_normalize_large n Hlo) as (-> & Hq & Hd).
  pose proof (digits_le_1024 n ltac:(lia)) as Hd'.
  rewrite binary_round_aux_53 by lia.
  set (k := Zdigits2 n - 53) in *.
  set (M' := round_nearest_even (n / 2 ^ k) (loc_of_shr_record (shifted n k))).
  assert (HM' : M' = n / 2 ^ k \/ M' = n / 2 ^ k + 1)
    by apply round_nearest_even_cases.
  destruct (Z.eqb_spec M' (2 ^ 53)) as [Heq | Hne].
  - destruct (Z.leb_spec (k + 1) 971) as [Hk | Hk].
    + exists (Z.to_pos (2 ^ 52)), (k + 1).
      split; [reflexivity |]. split; [split; [apply Z.le_refl | reflexivity] | lia].
    + exfalso.
      assert (Ek : k = 971) by lia.
      assert (Hn : 2 ^ 1023 <= n < 2 ^ 1024).
      { split; [| lia].
        destruct (Zdigits2_bounds n Hpos) as [[Hb _] _].
        replace (Zdigits2 n - 1) with 1023 in Hb by lia. assumption. }
      subst M'. rewrite Ek in Heq.
      rewrite (round_1024_bits n Hn) in Heq. lia.
  - destruct (Z.leb_spec k 971) as [Hk | Hk]; [| lia].
    exists (Z.to_pos M'), k.
    rewrite Z2Pos.id by lia. split; [reflexivity | lia].
Qed.

(** From [2 ^ 106] up to the overflow threshold, [int(sqrt(n))] is at
    least [2 ^ 52] and less than [n]. *)
Lemma int_sqrt_big (n : Z) :
  2 ^ 106 <= n < Float64.overflow_threshold ->
  exists root, int_sqrt n = Return root /\ 2 ^ 52 <= root < n.
Proof.
  intros [Hlo Hlt].
  assert (H53 : 2 ^ 53 <= 2 ^ 106) by (apply Z.leb_le; reflexivity).
  destruct (binary_normalize_exponent n ltac:(lia)) as (m & e & Hfloat & Hm & He & He971).
  pose proof (digits_ge n 107 ltac:(lia) Hlo) as Hd.
  assert (Hpos : 0 < n) by (assert (0 < 2 ^ 106) by reflexivity; lia).
  destruct (Zdigits2_bounds n Hpos) as [[Hnlo _] _].
  set (d := Zdigits2 n) in *.
  destruct (SFsqrt_normal m e Hm ltac:(lia)) as (Hsqrt & HM' & _).
  cbv zeta in Hsqrt, HM'.
  pose proof (Z.div_mod (54 + e) 2 ltac:(lia)) as Hdm.
  pose proof (Z.mod_pos_bound (54 + e) 2 ltac:(lia)) as Hb.
  set (h := (54 + e) / 2) in *.
  set (M' := if Z.sqrt (Zpos m * 2 ^ (e - 2 * (h - 53)))
                <? Zpos m * 2 ^ (e - 2 * (h - 53))
                   - Z.sqrt (Zpos m * 2 ^ (e - 2 * (h - 53)))
                     * Z.sqrt (Zpos m * 2 ^ (e - 2 * (h - 53)))
             then Z.sqrt (Zpos m * 2 ^ (e - 2 * (h - 53))) + 1
             else Z.sqrt (Zpos m * 2 ^ (e - 2 * (h - 53)))) in *.
  exists (M' * 2 ^ (h - 53)).
  split.
  - unfold int_sqrt, math_sqrt, Float64.of_int. rewrite Hfloat.
    rewrite sqrt_then_int by (rewrite Hsqrt; discriminate).
    rewrite Hsqrt, to_int_finite, Z2Pos.id by lia.
    destruct (Z.ltb_spec (h - 53) 0); [lia | reflexivity].
  - assert (Hp : 1 <= 2 ^ (h - 53)).
    { assert (0 < 2 ^ (h - 53)) by (apply Z.pow_pos_nonneg; lia). lia. }
    assert (Hh : 2 ^ 53 * 2 ^ (h - 53) = 2 ^ h)
      by (rewrite <- Z.pow_add_r by lia; f_equal; lia).
    assert (Hhd : 2 ^ h <= 2 ^ (d - 1)) by (apply Z.pow_le_mono_r; lia).
    split.
    + assert (2 ^ 52 * 1 <= M' * 2 ^ (h - 53))
        by (apply Z.mul_le_mono_nonneg; lia).
      lia.
    + assert (M' * 2 ^ (h - 53) < 2 ^ 53 * 2 ^ (h - 53))
        by (apply Z.mul_lt_mono_pos_r; lia).
      lia.
Qed.

(** Wherever [int(sqrt(n))] returns, the last trial divisor is less than
    [n] and covers every divisor up to the square root that is at most
    [2 ^ 52]. *)
Lemma int_sqrt_covers (n : Z) :
  2 <= n < Float64.overflow_threshold ->
  exists root,
    int_sqrt n = Return root /\ root < n
    /\ forall d, 0 <= d -> d * d <= n -> d <= 2 ^ 52 -> d <= root.
Proof.
  intros [Hlo Hlt].
  destruct (Z_lt_ge_dec n (2 ^ 106)) as [Hs | Hl].
  - destruct (int_sqrt_root n ltac:(lia)) as (root & Hret & Hb & Hn & _).
    exists root. split; [assumption |]. split; [assumption |].
    intros d Hd Hsq _.
    assert (d <= Z.sqrt n) by (apply Z.sqrt_le_square; lia). lia.
  - destruct (int_sqrt_big n ltac:(lia)) as (root & Hret & Hb).
    exists root. split; [assumption |]. split; [lia |].
    intros d _ _ Hd. lia.
Qed.

Lemma is_prime_loop_false (number : Z) (elements : list Z) :
  is_prime_loop number elements = false ->
  exists element, In element elements /\ number mod element = 0.
Proof.
  induction elements as [| element rest IH]; cbn [is_prime_loop In].
  - discriminate.
  - destruct (Z.eqb_spec (number mod element) 0) as [E | E].
    + intros _. exists element. split; [left; reflexivity | assumption].
    + intros H. destruct (IH H) as (d & Hd & Hmod).
      exists d. split; [right; assumption | assumption].
Qed.

End LargeRoots.

(** * Further properties of [is_prime] *)

(** X1.  [is_prime] never rejects a prime: whenever it returns [False],
    for any integer at all, the number is not prime. *)
Theorem is_prime_false_not_prime (n : Z) :
  is_prime n = Return false -> ~ Prime n.
Proof.
  intros Hfalse.
  destruct (Z_lt_ge_dec n 2) as [Hlt | Hge];
    [apply not_Prime_below_2; assumption |].
  destruct (Z_lt_ge_dec n Float64.overflow_threshold) as [Hin | Hout].
  - destruct (int_sqrt_covers n ltac:(lia)) as (root & Hret & Hroot & _).
    unfold is_prime in Hfalse.
    destruct (Z.ltb_spec n 2) as [H | _]; [lia |].
    rewrite Hret in Hfalse. injection Hfalse as Hloop.
    destruct (is_prime_loop_false _ _ Hloop) as (d & Hd & Hmod).
    rewrite In_range in Hd.
    intros [_ Hp].
    assert (Hdiv : (d | n)) by (apply Z.mod_divide; [lia | assumption]).
    destruct (Hp d ltac:(lia) Hdiv); lia.
  - rewrite is_prime_overflow in Hfalse by lia. discriminate Hfalse.
Qed.

Lemma is_prime_false_not_prime_witness : ~ Prime 91.
Proof.
  apply (is_prime_false_not_prime 91). vm_compute. reflexivity.
Defined.

(** X2.  Whenever [is_prime] returns [True], for any integer at all, the
    number is at least 2 and has no divisor [d] with [2 <= d],
    [d * d <= n] and [d <= 2 ^ 52]. *)
Theorem is_prime_true_no_small_factor (n : Z) :
  is_prime n = Return true ->
  2 <= n
  /\ forall d, 2 <= d -> d * d <= n -> d <= 2 ^ 52 -> ~ (d | n).
Proof.
  intros Htrue.
  destruct (Z_lt_ge_dec n 2) as [Hlt | Hge].
  { rewrite is_prime_below_2 in Htrue by assumption. discriminate Htrue. }
  split; [lia |].
  destruct (Z_lt_ge_dec n Float64.overflow_threshold) as [Hin | Hout].
  - destruct (int_sqrt_covers n ltac:(lia)) as (root & Hret & Hroot & Hcover).
    unfold is_prime in Htrue.
    destruct (Z.ltb_spec n 2) as [H | _]; [lia |].
    rewrite Hret in Htrue. injection Htrue as Hloop.
    rewrite is_prime_loop_true in Hloop.
    intros d Hd Hsq Hsmall Hdiv.
    apply (Hloop d).
    + apply In_range. split; [assumption |].
      assert (d <= root) by (apply Hcover; lia). lia.
    + apply Z.mod_divide; [lia | assumption].
  - rewrite is_prime_overflow in Htrue by lia. discriminate Htrue.
Qed.

Lemma is_prime_true_no_small_factor_witness :
  2 <= 97 /\ ~ (5 | 97).
Proof.
  destruct (is_prime_true_no_small_factor 97) as [H2 Hdiv].
  - vm_compute. reflexivity.
  - split; [exact H2 |].
    apply Hdiv; [lia | lia | apply Z.leb_le; reflexivity].
Defined.

(** X3.  Below [2 ^ 106], [is_prime] decides primality: it returns [True]
    exactly for the primes and [False] exactly for the other integers. *)
Theorem is_prime_decides_primality (n : Z) :
  n < 2 ^ 106 ->
  (is_prime n = Return true <-> Prime n)
  /\ (is_prime n = Return false <-> ~ Prime n).
Proof.
  intros Hn. destruct (is_prime_correct n Hn) as (b & Hret & Hb).
  rewrite Hret. split; split.
  - intros H. injection H as ->. apply Hb. reflexivity.
  - intros H. f_equal. apply Hb. assumption.
  - intros H Hp. injection H as ->. apply Hb in Hp. discriminate Hp.
  - intros H. f_equal. destruct b; [| reflexivity].
    exfalso. apply H, Hb. reflexivity.
Qed.

Lemma is_prime_decides_primality_witness :
  (is_prime 7919 = Return true <-> Prime 7919)
  /\ (is_prime 7919 = Return false <-> ~ Prime 7919).
Proof.
  apply (is_prime_decides_primality 7919). apply Z.ltb_lt. reflexivity.
Defined.

(** X4.  The only exception [is_prime] raises is the [OverflowError] of
    [math.sqrt], and only for an int of at least [2 ^ 1024 - 2 ^ 970]. *)
Theorem is_prime_raises_only_overflow (n : Z) (e : exn) :
  is_prime n = Raise e ->
  e = OverflowError /\ 2 ^ 1024 - 2 ^ 970 <= n.
Proof.
  change (2 ^ 1024 - 2 ^ 970) with Float64.overflow_threshold.
  intros Hraise.
  destruct (Z_lt_ge_dec n Float64.overflow_threshold) as [Hin | Hout].
  - destruct (is_prime_returns n Hin) as [b Hb].
    rewrite Hb in Hraise. discriminate Hraise.
  - rewrite is_prime_overflow in Hraise by lia.
    injection Hraise as <-. split; [reflexivity | lia].
Qed.

Lemma is_prime_raises_only_overflow_witness :
  OverflowError = OverflowError /\ 2 ^ 1024 - 2 ^ 970 <= 2 ^ 1024.
Proof.
  apply (is_prime_raises_only_overflow (2 ^ 1024) OverflowError).
  apply is_prime_overflow. apply Z.leb_le. reflexivity.
Defined.

Section NegativeRoots.

Lemma binary_round_aux_opp (mx ex : Z) (lx : location) :
  binary_round_aux Float64.prec Float64.emax true mx ex lx
  = SFopp (binary_round_aux Float64.prec Float64.emax false mx ex lx).
Proof.
  unfold binary_round_aux.
  destruct (shr_fexp Float64.prec Float64.emax mx ex lx) as [mrs' e'].
  destruct (shr_fexp Float64.prec Float64.emax
              (round_nearest_even (shr_m mrs') (loc_of_shr_record mrs')) e'
              loc_Exact) as [mrs'' e''].
  destruct (shr_m mrs'') as [| m | m]; try reflexivity.
  destruct (e'' <=? Float64.emax - Float64.prec); reflexivity.
Qed.

Lemma binary_normalize_opp (p : positive) :
  binary_normalize Float64.prec Float64.emax (Zneg p) 0 false
  = SFopp (binary_normalize Float64.prec Float64.emax (Zpos p) 0 false).
Proof.
  cbn [binary_normalize]. unfold binary_round.
  destruct (shl_align p 0 _) as [mz ez].
  apply binary_round_aux_opp.
Qed.

Lemma math_sqrt_negative_raises (n : Z) :
  n < 0 ->
  math_sqrt n
  = Raise (if - Float64.overflow_threshold <? n
           then ValueError "math domain error" else OverflowError).
Proof.
  intros Hn. destruct n as [| p | p]; try lia.
  unfold math_sqrt, Float64.of_int. rewrite binary_normalize_opp.
  destruct (Z.ltb_spec (- Float64.overflow_threshold) (Zneg p)) as [Hin | Hout].
  - destruct (binary_normalize_finite (Zpos p) ltac:(lia)) as (m & e & -> & _).
    reflexivity.
  - rewrite binary_normalize_overflow by lia. reflexivity.
Qed.

End NegativeRoots.

(** X5.  The [number < 2] guard of [is_prime] is what keeps negative
    inputs from raising: for every negative int, [int(sqrt(number))]
    raises ([ValueError] for a domain error, or [OverflowError] when the
    int does not fit a float), while [is_prime] returns [False]. *)
Theorem guard_shields_negative_numbers (n : Z) :
  n < 0 ->
  int_sqrt n
  = Raise (if - (2 ^ 1024 - 2 ^ 970) <? n
           then ValueError "math domain error" else OverflowError)
  /\ is_prime n = Return false.
Proof.
  change (2 ^ 1024 - 2 ^ 970) with Float64.overflow_threshold.
  intros Hn. split.
  - unfold int_sqrt. rewrite math_sqrt_negative_raises by assumption. reflexivity.
  - apply is_prime_below_2. lia.
Qed.

Lemma guard_shields_negative_numbers_witness :
  int_sqrt (-9) = Raise (ValueError "math domain error")
  /\ is_prime (-9) = Return false.
Proof.
  apply (guard_shields_negative_numbers (-9)). lia.
Defined.

(** * Further properties of [count_prime_numbers] and [main] *)

Section CountBounds.

Lemma length_range_from (start : Z) (len : nat) :
  List.length (range_from start len) = len.
Proof.
  revert start. induction len as [| len IH]; intros start; cbn [range_from List.length].
  - reflexivity.
  - rewrite IH. reflexivity.
Qed.

Lemma length_range (start stop : Z) :
  Z.of_nat (List.length (range start stop)) = Z.max 0 (stop - start).
Proof. unfold range. rewrite length_range_from. lia. Qed.

Lemma counted_at_least_2 (n : Z) : counted n = true -> 2 <= n.
Proof.
  intros H. destruct (Z_lt_ge_dec n 2) as [Hlt | Hge]; [| lia].
  unfold counted in H. rewrite is_prime_below_2 in H by assumption.
  discriminate H.
Qed.

Lemma filter_counted_from_2 (upper_bound : Z) :
  2 <= upper_bound ->
  filter counted (range 0 upper_bound) = filter counted (range 2 upper_bound).
Proof.
  intros H. rewrite (range_split 0 2 upper_bound) by lia.
  rewrite filter_app. reflexivity.
Qed.

Lemma count_at_most (upper_bound : Z) :
  Z.of_nat (List.length (filter counted (range 0 upper_bound)))
  <= Z.max 0 (upper_bound - 2).
Proof.
  destruct (Z_lt_ge_dec upper_bound 2) as [Hlt | Hge].
  - assert (E : filter counted (range 0 upper_bound) = []).
    { destruct (filter counted (range 0 upper_bound)) as [| x l] eqn:El;
        [reflexivity | exfalso].
      assert (Hx : In x (filter counted (range 0 upper_bound)))
        by (rewrite El; left; reflexivity).
      rewrite filter_In, In_range in Hx. destruct Hx as [Hr Hc].
      apply counted_at_least_2 in Hc. lia. }
    rewrite E. cbn [List.length]. lia.
  - rewrite filter_counted_from_2 by lia.
    pose proof (filter_length_le counted (range 2 upper_bound)) as Hle.
    pose proof (length_range 2 upper_bound) as Hlen.
    lia.
Qed.

End CountBounds.



(** X7.  For every bound up to [2 ^ 1024 - 2 ^ 970] the count returned by
    the decorated [count_prime_numbers] lies between 0 and [bound - 2]
    (between 0 and 0 for a bound below 2): the numbers 0 and 1 are never
    counted. *)
Theorem count_prime_numbers_range
    (heap : Type) (format_2f : spec_float -> string)
    (bound : Z) (w : world heap) :
  bound <= 2 ^ 1024 - 2 ^ 970 ->
  exists count,
    fst (__call__ (count_prime_numbers format_2f) bound tt w) = Return count
    /\ 0 <= count <= Z.max 0 (bound - 2).
Proof.
  change (2 ^ 1024 - 2 ^ 970) with Float64.overflow_threshold.
  intros Hb. rewrite count_prime_numbers_outcome, count_body_returns by assumption.
  eexists. split; [reflexivity |].
  split; [lia | apply count_at_most].
Qed.

Lemma count_prime_numbers_range_witness :
  exists count,
    fst (__call__ (count_prime_numbers constant_text) 10 tt quiet_world)
    = Return count
    /\ 0 <= count <= 8.
Proof.
  apply (count_prime_numbers_range unit constant_text 10 quiet_world).
  apply Z.leb_le. reflexivity.
Defined.

(** X8.  [main] never raises: after [logging.basicConfig] it returns
    [None], having added exactly the three entries "Calling",
    "took X seconds" and "Finished" of [count_prime_numbers] to the log
    and read the clock twice; the rest of the state is as
    [logging.basicConfig] left it. *)
Theorem main_returns_and_logs
    (heap : Type) (format_2f : spec_float -> string)
    (basic_config : heap -> heap) (w : world heap) :
  fst (main format_2f basic_config w) = Return tt
  /\ logged (snd (main format_2f basic_config w))
     = logged w
       ++ [ "Calling count_prime_numbers";
            "Execution of count_prime_numbers took "
            ++ format_2f (Float64.sub (clock w (S (clock_reads w)))
                                      (clock w (clock_reads w)))
            ++ " seconds.";
            "Finished count_prime_numbers" ]%string
  /\ clock_reads (snd (main format_2f basic_config w)) = S (S (clock_reads w))
  /\ store (snd (main format_2f basic_config w)) = basic_config (store w).
Proof.
  pose proof threshold_large as Hthr.
  assert (H5 : 50000 <= 2 ^ 106) by (apply Z.leb_le; reflexivity).
  unfold main. cbv zeta.
  rewrite count_prime_numbers_call. cbv zeta.
  rewrite count_body_returns by lia.
  cbv beta iota delta [fst snd].
  unfold log_info, tick, timing_entry, logging_basicConfig.
  cbv beta iota delta [logged clock clock_reads store].
  rewrite <- !app_assoc. repeat split.
Qed.

(** * Further properties of the decorators *)



(** X10.  The two wrappers stacked as on [count_prime_numbers]
    ([with_logging] around [benchmark]), around any callable [func] that
    has a [__name__]: the callable runs after the "Calling" entry and the
    first clock reading; if it returns, its value is returned after the
    timing entry, computed from the readings around the call, and the
    "Finished" entry; if it raises, the exception leaves both wrappers
    and nothing more is logged. *)
Theorem stacked_wrappers_call
    (heap : Type) (P : ParamSpec) (R : Type) (format_2f : spec_float -> string)
    (func : callable heap P R) (name : string)
    (args : p_args P) (kwargs : p_kwargs P) (w w1 : world heap)
    (result : outcome R) :
  __name__ func = Some name ->
  __call__ func args kwargs (tick (log_info ("Calling " ++ name) w)) = (result, w1) ->
  __call__ (with_logging (benchmark format_2f func)) args kwargs w
  = match result with
    | Return value =>
        (Return value,
         log_info ("Finished " ++ name)
           (log_info
              ("Execution of " ++ name ++ " took "
               ++ format_2f (Float64.sub (clock w1 (clock_reads w1))
                                         (clock w (clock_reads w)))
               ++ " seconds.")
              (tick w1)))
    | Raise e => (Raise e, w1)
    end.
Proof.
  intros Hname Hcall.
  assert (Hbench : __name__ (benchmark format_2f func) = Some name)
    by (unfold benchmark, functools_wraps; cbn [__name__]; rewrite Hname;
        reflexivity).
  unfold with_logging at 1. cbn [__call__ functools_wraps]. unfold run.
  rewrite (with_logging_wrapper_named (benchmark format_2f func) args kwargs
             name w Hbench).
  cbv zeta. unfold direct_call. cbn [inv_outcome inv_exit].
  assert (Hinner : __call__ (benchmark format_2f func) args kwargs
                     (log_info ("Calling " ++ name) w)
                   = match result with
                     | Return value =>
                         (Return value,
                          log_info
                            (timing_entry format_2f name
                               (log_info ("Calling " ++ name) w) w1)
                            (tick w1))
                     | Raise e => (Raise e, w1)
                     end).
  { unfold benchmark. cbn [__call__ functools_wraps]. unfold run.
    rewrite benchmark_wrapper_run, Hname. cbv zeta.
    unfold direct_call. cbn [inv_outcome inv_exit]. rewrite Hcall.
    destruct result; reflexivity. }
  rewrite Hinner. destruct result; reflexivity.
Qed.

Lemma stacked_wrappers_call_witness :
  __call__ (with_logging (benchmark constant_text successor)) 41 tt quiet_world
  = (Return 42,
     log_info "Finished successor"
       (log_info "Execution of successor took 0.00 seconds."
          (tick (tick (log_info "Calling successor" quiet_world)))))
  /\ __call__ (with_logging (benchmark constant_text failing)) 41 tt quiet_world
     = (Raise (PyExc "RuntimeError" "boom"),
        tick (log_info "Calling failing" quiet_world)).
Proof.
  split.
  - apply (stacked_wrappers_call unit one_int Z constant_text successor "successor"
             41 tt quiet_world (tick (log_info "Calling successor" quiet_world))
             (Return 42) eq_refl eq_refl).
  - apply (stacked_wrappers_call unit one_int Z constant_text failing "failing"
             41 tt quiet_world (tick (log_info "Calling failing" quiet_world))
             (Raise (PyExc "RuntimeError" "boom")) eq_refl eq_refl).
Defined.

(** X11.  A callable without [__name__]: [with_logging] raises
    [AttributeError] at once, without calling it and without logging, so
    the world is unchanged; [benchmark] calls it, and when it returns
    raises [AttributeError] after the second clock reading, the result
    being lost and no timing entry written; an exception of the callable
    itself still leaves [benchmark] unchanged. *)
Theorem wrappers_on_nameless_callable
    (heap : Type) (P : ParamSpec) (R : Type) (format_2f : spec_float -> string)
    (func : callable heap P R) (args : p_args P) (kwargs : p_kwargs P)
    (w w1 : world heap) (result : outcome R) :
  __name__ func = None ->
  __call__ func args kwargs (tick w) = (result, w1) ->
  __call__ (with_logging func) args kwargs w
  = (Raise (AttributeError "__name__"), w)
  /\ calls_of (with_logging_wrapper func args kwargs) w = []
  /\ __call__ (benchmark format_2f func) args kwargs w
     = match result with
       | Return _ => (Raise (AttributeError "__name__"), tick w1)
       | Raise e => (Raise e, w1)
       end.
Proof.
  intros Hname Hcall. split; [| split].
  - unfold with_logging. cbn [__call__ functools_wraps]. unfold run.
    rewrite (with_logging_wrapper_nameless func args kwargs w Hname). reflexivity.
  - unfold calls_of.
    rewrite (with_logging_wrapper_nameless func args kwargs w Hname). reflexivity.
  - unfold benchmark. cbn [__call__ functools_wraps]. unfold run.
    rewrite benchmark_wrapper_run, Hname. cbv zeta.
    unfold direct_call. cbn [inv_outcome inv_exit]. rewrite Hcall.
    destruct result; reflexivity.
Qed.

Lemma wrappers_on_nameless_callable_witness :
  __call__ (with_logging nameless_successor) 41 tt quiet_world
  = (Raise (AttributeError "__name__"), quiet_world)
  /\ __call__ (benchmark constant_text nameless_successor) 41 tt quiet_world
     = (Raise (AttributeError "__name__"), tick (tick quiet_world)).
Proof.
  destruct (wrappers_on_nameless_callable unit one_int Z constant_text
              nameless_successor 41 tt quiet_world (tick quiet_world) (Return 42)
              eq_refl eq_refl) as (Hlog & _ & Hbench).
  split; [exact Hlog | exact Hbench].
Defined.
